(** * Amount formatting of the blade component library

    A shallow embedding of the formatting functions of
    [packages/blade/src/components/Amount/Amount.tsx]
    ([getFlooredFixed], [addCommas], [getHumanizedAmount],
    [formatAmountWithSuffix] and the development-mode checks of [_Amount])
    together with the part of the ECMAScript host they call
    ([Math.floor], [Number.prototype.toFixed], [Number],
    [Number.prototype.toString], [Number.prototype.toLocaleString]).

    Numbers.  A JavaScript number is modelled by [number]: [NaN], the two
    infinities, or a finite value carried as an exact rational.  Binary
    rounding and overflow of IEEE-754 doubles are abstracted away, and there
    is no negative zero.  Every concrete evaluation stated below uses inputs
    on which the double computation gives the same printed result.

    Strings.  A JavaScript string is modelled by Rocq's [string] (one byte
    per character, the infinity sign of [toLocaleString] being its three
    UTF-8 bytes).

    Exceptions.  Code that may throw returns a [completion]. *)

From Stdlib Require Import ZArith Znumtheory QArith Qround Qabs Qreduction Qpower.
From Stdlib Require Import List Sorted Ascii String Bool Lia Lqa.
Import ListNotations.

Local Open Scope Z_scope.

(** ** Completions: a value, or a thrown exception *)

Inductive exn : Type :=
| RangeError
| BladeError (moduleName message : string).

Inductive completion (A : Type) : Type :=
| Return (a : A)
| Throw (e : exn).

Arguments Return {A} a.
Arguments Throw {A} e.

Definition bind {A B : Type} (c : completion A) (k : A -> completion B)
  : completion B :=
  match c with
  | Return a => k a
  | Throw e => Throw e
  end.

Declare Scope completion_scope.
Delimit Scope completion_scope with completion.
Notation "x <- c ;; k" := (bind c (fun x => k))
  (at level 61, c at next level, right associativity) : completion_scope.
Notation "c ;;; k" := (bind c (fun _ => k))
  (at level 61, right associativity) : completion_scope.

(** ** The host: numbers and the built-ins the component calls *)

Module Js.

(** *** Numbers *)

Inductive number : Type :=
| NaN
| Infinity (negative : bool)
| Finite (q : Q).

(** Finite results are kept in lowest terms, so that two numbers of the model
    are the same value exactly when they are equal. *)
Definition fin (q : Q) : number := Finite (Qred q).

Definition Qlt_bool (x y : Q) : bool := negb (Qle_bool y x).

(** [a * b] *)
Definition mul (a b : number) : number :=
  match a, b with
  | NaN, _ | _, NaN => NaN
  | Infinity s, Infinity t => Infinity (xorb s t)
  | Infinity s, Finite q | Finite q, Infinity s =>
      if Qeq_bool q 0 then NaN else Infinity (xorb s (Qlt_bool q 0))
  | Finite p, Finite q => fin (p * q)
  end.

(** [a / b] *)
Definition div (a b : number) : number :=
  match a, b with
  | NaN, _ | _, NaN => NaN
  | Infinity _, Infinity _ => NaN
  | Infinity s, Finite q => Infinity (xorb s (Qlt_bool q 0))
  | Finite _, Infinity _ => fin 0
  | Finite p, Finite q =>
      if Qeq_bool q 0
      then (if Qeq_bool p 0 then NaN else Infinity (Qlt_bool p 0))
      else fin (p / q)
  end.

(** [b ** e] for an integer base and a non-negative integer exponent. *)
Definition pow (b : Z) (e : nat) : number := fin (inject_Z (b ^ Z.of_nat e)).

(** [Math.floor(a)] *)
Definition Math_floor (a : number) : number :=
  match a with
  | Finite q => fin (inject_Z (Qfloor q))
  | _ => a
  end.

(** [a >= b]: false as soon as one side is [NaN]. *)
Definition ge (a b : number) : bool :=
  match a, b with
  | NaN, _ | _, NaN => false
  | Infinity s, Infinity t => implb s t
  | Infinity s, Finite _ => negb s
  | Finite _, Infinity t => t
  | Finite p, Finite q => Qle_bool q p
  end.

(** [a < b] *)
Definition lt (a b : number) : bool :=
  match a, b with
  | NaN, _ | _, NaN => false
  | Infinity s, Infinity t => s && negb t
  | Infinity s, Finite _ => s
  | Finite _, Infinity t => negb t
  | Finite p, Finite q => Qlt_bool p q
  end.

(** The order of the values, for stating results: [le a b] reads "a is at
    most b"; nothing is comparable with [NaN]. *)
Definition le (a b : number) : Prop :=
  match a, b with
  | NaN, _ | _, NaN => False
  | Infinity s, Infinity t => s = true \/ t = false
  | Infinity s, Finite _ => s = true
  | Finite _, Infinity t => t = false
  | Finite p, Finite q => (p <= q)%Q
  end.

(** *** Decimal digits *)

Definition digit_char (n : Z) : ascii :=
  ascii_of_N (48 + Z.to_N (n mod 10)).

Definition is_digit (c : ascii) : bool :=
  let n := N_of_ascii c in ((48 <=? n) && (n <=? 57))%N.

Definition digit_val (c : ascii) : Z := Z.of_N (N_of_ascii c) - 48.

(** The [k] low decimal digits of [m], most significant first. *)
Fixpoint digits_fixed (k : nat) (m : Z) : list ascii :=
  match k with
  | O => []
  | S k' => digits_fixed k' (m / 10) ++ [digit_char m]
  end.

(** The number of decimal digits of [m] (one for [m < 10]). *)
Fixpoint num_digits_fuel (fuel : nat) (m : Z) : nat :=
  match fuel with
  | O => 1
  | S f => if m <? 10 then 1%nat else S (num_digits_fuel f (m / 10))
  end.

Definition num_digits (m : Z) : nat :=
  num_digits_fuel (Z.to_nat (Z.log2 m)) m.

(** The decimal digits of the non-negative integer [m], without leading
    zeros ("0" for zero). *)
Definition digits (m : Z) : list ascii := digits_fixed (num_digits m) m.

(** Reads a run of decimal digits, most significant first. *)
Fixpoint parse_digits (acc : Z) (s : list ascii) : option Z :=
  match s with
  | [] => Some acc
  | c :: s' =>
      if is_digit c then parse_digits (acc * 10 + digit_val c) s' else None
  end.

(** Drops zeros from the end of the reversed digit list [r] while more than
    [keep] digits remain. *)
Fixpoint strip_zeros_rev (keep : nat) (r : list ascii) : list ascii :=
  match r with
  | c :: r' =>
      if (keep <? List.length r)%nat && Ascii.eqb c "0"
      then strip_zeros_rev keep r'
      else r
  | [] => []
  end.

Definition strip_trailing_zeros (keep : nat) (ds : list ascii) : list ascii :=
  rev (strip_zeros_rev keep (rev ds)).

Definition sign_prefix (negative : bool) : list ascii :=
  if negative then ["-"%char] else [].

(** *** [Number.prototype.toString] (radix 10)

    ECMAScript writes a finite non-zero [x] as [s * 10^(n-k)] with [s] an
    integer of [k] digits, [k] as small as possible, and prints it in
    positional notation when [-6 < n <= 21], in exponent notation otherwise.
    A double is always a terminating decimal, and a terminating decimal with
    denominator [d] in lowest terms is a whole number of units of [10^-j] for
    [j] the bit length of [d].  For the other rationals of the model the
    expansion is cut after [cut_digits] fractional digits. *)

Definition cut_digits : nat := 20.

(** A [j] and the integer [q * 10^j] (cut when [q] is not a terminating
    decimal). *)
Definition decimal_scale (q : Q) : nat * Z :=
  let j := S (Z.to_nat (Z.log2 (Z.pos (Qden (Qred q))))) in
  let x := (q * inject_Z (10 ^ Z.of_nat j))%Q in
  if Qeq_bool (inject_Z (Qfloor x)) x then (j, Qfloor x)
  else (cut_digits, Qfloor (q * inject_Z (10 ^ Z.of_nat cut_digits))%Q).

Definition exponent_suffix (e : Z) : list ascii :=
  "e"%char :: (if e <? 0 then "-"%char else "+"%char) :: digits (Z.abs e).

Definition toString_pos (q : Q) : list ascii :=
  let (j, m) := decimal_scale q in
  let all := digits m in
  let s := strip_trailing_zeros 1 all in
  let k := Z.of_nat (List.length s) in
  let n := Z.of_nat (List.length all) - Z.of_nat j in
  if (k <=? n) && (n <=? 21) then
    s ++ repeat "0"%char (Z.to_nat (n - k))
  else if (0 <? n) && (n <=? 21) then
    firstn (Z.to_nat n) s ++ "."%char :: skipn (Z.to_nat n) s
  else if (-6 <? n) && (n <=? 0) then
    "0"%char :: "."%char :: repeat "0"%char (Z.to_nat (- n)) ++ s
  else if k =? 1 then
    s ++ exponent_suffix (n - 1)
  else
    firstn 1 s ++ "."%char :: skipn 1 s ++ exponent_suffix (n - 1).

Definition toString (x : number) : string :=
  match x with
  | NaN => "NaN"
  | Infinity s => if s then "-Infinity" else "Infinity"
  | Finite q =>
      if Qeq_bool q 0 then "0"
      else string_of_list_ascii
             (sign_prefix (Qlt_bool q 0) ++ toString_pos (Qabs q))
  end.

(** *** [Number.prototype.toFixed]

    Throws a RangeError unless [0 <= f <= 100].  For a finite [x] below
    [10^21] in magnitude it takes the integer [n] for which [n / 10^f - x] is
    as close to zero as possible, the larger one when there are two, and
    prints [n] with [f] digits after the point.  From [10^21] on, and for a
    non-finite [x], it prints what [toString] prints. *)

Definition max_fraction_digits : nat := 100.

(** The integer nearest to [a * 10^f], the larger one on a tie ([0 <= a]). *)
Definition round_half_up (a : Q) (f : nat) : Z :=
  Qfloor (a * inject_Z (10 ^ Z.of_nat f) + (1 # 2))%Q.

Definition toFixed (x : number) (f : nat) : completion string :=
  if (max_fraction_digits <? f)%nat then Throw RangeError
  else match x with
       | Finite q =>
           if Qle_bool (inject_Z (10 ^ 21)) (Qabs q) then Return (toString x)
           else
             let n := round_half_up (Qabs q) f in
             let p := 10 ^ Z.of_nat f in
             let m := digits (n / p)
                      ++ match f with
                         | O => []
                         | _ => "."%char :: digits_fixed f (n mod p)
                         end in
             Return (string_of_list_ascii (sign_prefix (Qlt_bool q 0) ++ m))
       | _ => Return (toString x)
       end.

(** *** [Number(string)]

    The decimal literals of StringToNumber: an optional sign, then
    [Infinity], or digits with an optional fraction and an optional exponent.
    The empty string is [0]; anything else is [NaN].  White space and the
    hexadecimal, octal and binary literals are not modelled: [toFixed] never
    prints them. *)

Fixpoint split_at (p : ascii -> bool) (s : list ascii)
  : list ascii * option (list ascii) :=
  match s with
  | [] => ([], None)
  | c :: s' =>
      if p c then ([], Some s')
      else let (a, b) := split_at p s' in (c :: a, b)
  end.

Definition split_sign (s : list ascii) : bool * list ascii :=
  match s with
  | c :: r =>
      if Ascii.eqb c "-" then (true, r)
      else if Ascii.eqb c "+" then (false, r)
      else (false, s)
  | [] => (false, s)
  end.

Definition is_exponent_mark (c : ascii) : bool :=
  Ascii.eqb c "e" || Ascii.eqb c "E".

Definition is_point (c : ascii) : bool := Ascii.eqb c ".".

Definition parse_exponent (e : option (list ascii)) : option Z :=
  match e with
  | None => Some 0
  | Some s =>
      let (neg, ds) := split_sign s in
      match ds with
      | [] => None
      | _ => option_map (fun v => if neg then - v else v) (parse_digits 0 ds)
      end
  end.

Definition parse_decimal (s : list ascii) : option Q :=
  let (mant, ex) := split_at is_exponent_mark s in
  let (ip, fp) := split_at is_point mant in
  let fs := match fp with Some fs => fs | None => [] end in
  match ip ++ fs with
  | [] => None
  | _ :: _ =>
      match parse_digits 0 (ip ++ fs), parse_exponent ex with
      | Some m, Some e =>
          Some (inject_Z m * inject_Z 10 ^ (e - Z.of_nat (List.length fs)))%Q
      | _, _ => None
      end
  end.

Definition Number (str : string) : number :=
  match list_ascii_of_string str with
  | [] => fin 0
  | s =>
      let (neg, r) := split_sign s in
      if String.eqb (string_of_list_ascii r) "Infinity" then Infinity neg
      else match parse_decimal r with
           | Some q => fin (if neg then - q else q)
           | None => NaN
           end
  end.

(** *** [Number.prototype.toLocaleString(locale, { minimumFractionDigits })]

    Only the minimum is given, so ECMA-402 takes for the maximum the larger
    of the minimum and 3; the minimum must lie in [0..100].  The magnitude is
    rounded to the maximum number of fraction digits, ties away from zero;
    zeros at the end of the fraction are dropped down to the minimum; the
    integer digits are grouped by the locale: threes for en-US, the last
    three and then twos for en-IN. *)

Inductive locale : Type := en_IN | en_US.

Definition secondary_group (l : locale) : nat :=
  match l with en_IN => 2%nat | en_US => 3%nat end.

(** Grouping, on the reversed digit list: [cnt] digits remain in the current
    group, every later group has [size] digits. *)
Fixpoint group_rev (size cnt : nat) (r : list ascii) : list ascii :=
  match r with
  | [] => []
  | c :: r' =>
      match cnt with
      | O => ","%char :: c :: group_rev size (size - 1) r'
      | S cnt' => c :: group_rev size cnt' r'
      end
  end.

Definition group_digits (l : locale) (ds : list ascii) : list ascii :=
  rev (group_rev (secondary_group l) 3 (rev ds)).

Definition infinity_sign : list ascii :=
  [ascii_of_nat 226; ascii_of_nat 136; ascii_of_nat 158].

Definition toLocaleString (x : number) (l : locale) (minimumFractionDigits : nat)
  : completion string :=
  if (max_fraction_digits <? minimumFractionDigits)%nat then Throw RangeError
  else match x with
       | NaN => Return "NaN"%string
       | Infinity s =>
           Return (string_of_list_ascii (sign_prefix s ++ infinity_sign))
       | Finite q =>
           let mx := Nat.max minimumFractionDigits 3 in
           let n := round_half_up (Qabs q) mx in
           let p := 10 ^ Z.of_nat mx in
           let frac := strip_trailing_zeros minimumFractionDigits
                         (digits_fixed mx (n mod p)) in
           Return (string_of_list_ascii
                     (sign_prefix (Qlt_bool q 0)
                      ++ group_digits l (digits (n / p))
                      ++ match frac with
                         | [] => []
                         | _ :: _ => "."%char :: frac
                         end))
       end.

(** The characters that follow the first decimal point of a printed number
    (none when there is no point). *)
Definition fraction_part (s : string) : list ascii :=
  match snd (split_at is_point (list_ascii_of_string s)) with
  | Some f => f
  | None => []
  end.

(** *** Strings: [startsWith], [includes], [split] *)

(** [s.startsWith(p)] *)
Definition startsWith (s p : string) : bool := String.prefix p s.

(** [s.includes(p)] *)
Definition includes (s p : string) : bool :=
  match String.index 0 p s with
  | Some _ => true
  | None => false
  end.

(** [s.split(sep)] for a separator of one character: the pieces between the
    separators, one piece (the string itself) when there is none. *)
Fixpoint split_chars (sep : ascii) (s : list ascii) : list (list ascii) :=
  match s with
  | [] => [[]]
  | c :: r =>
      if Ascii.eqb c sep then [] :: split_chars sep r
      else match split_chars sep r with
           | piece :: pieces => (c :: piece) :: pieces
           | [] => [[c]]
           end
  end.

Definition split (s : string) (sep : ascii) : list string :=
  map string_of_list_ascii (split_chars sep (list_ascii_of_string s)).

(** A printed number with its grouping separators taken out. *)
Definition without_separators (s : string) : string :=
  string_of_list_ascii
    (filter (fun c => negb (Ascii.eqb c ",")) (list_ascii_of_string s)).

End Js.

(** ** The component: [Amount.tsx] *)

Module Amount.

Import Js.
Local Open Scope string_scope.
Local Open Scope completion_scope.

(** A currency code, as in [amountTokens]. *)
Definition Currency : Type := string.

(** An entry of a currency's abbreviation table: [{ value, symbol }]. *)
Record CurrencyAbbreviation : Type := mkAbbreviation {
  value : number;
  symbol : string
}.

(** [getFlooredFixed(value, decimalPlaces)] (lines 159-163), for a
    non-negative integer [decimalPlaces]:
    [factor = 100 ** decimalPlaces],
    [roundedValue = Math.floor(value * factor) / factor],
    [Number(roundedValue.toFixed(decimalPlaces))]. *)
Definition getFlooredFixed (value : number) (decimalPlaces : nat)
  : completion number :=
  let factor := pow 100 decimalPlaces in
  let roundedValue := div (Math_floor (mul value factor)) factor in
  fixed <- toFixed roundedValue decimalPlaces ;;
  Return (Number fixed).

(** [addCommas(amountValue, currency, decimalPlaces = 0)] (lines 165-170);
    a caller that leaves [decimalPlaces] out passes [0] here. *)
Definition addCommas (amountValue : number) (currency : Currency)
    (decimalPlaces : nat) : completion string :=
  let locale := if currency =? "INR" then en_IN else en_US in
  toLocaleString amountValue locale decimalPlaces.

Section Tokens.

(** [getCurrencyAbbreviations] of [amountTokens] is not part of the sources at
    hand: the table is a parameter of everything that reads it. *)
Variable getCurrencyAbbreviations : Currency -> list CurrencyAbbreviation.

(** The [const abbreviation] of [getHumanizedAmount]:
    [abbreviations.find((abbr) => amountValue >= abbr.value)]. *)
Definition abbreviation (amountValue : number) (currency : Currency)
  : option CurrencyAbbreviation :=
  let abbreviations := getCurrencyAbbreviations currency in
  find (fun abbr => ge amountValue (value abbr)) abbreviations.

(** [getHumanizedAmount(amountValue, currency)] (lines 176-187) *)
Definition getHumanizedAmount (amountValue : number) (currency : Currency)
  : completion string :=
  match abbreviation amountValue currency with
  | Some abbreviation =>
      let amountValue := div amountValue (value abbreviation) in
      formattedAmountValue <- getFlooredFixed amountValue 2 ;;
      grouped <- addCommas formattedAmountValue currency 0 ;;
      Return (grouped ++ symbol abbreviation)
  | None => Return (toString amountValue)
  end.

(** [formatAmountWithSuffix({ suffix, value, currency })] (lines 195-214).
    The [suffix] is what reaches the [switch] at run time: [None] for
    [undefined], any string otherwise; [fallback] is the [default] branch. *)
Definition formatAmountWithSuffix (suffix : option string) (value : number)
    (currency : Currency) : completion string :=
  let fallback := floored <- getFlooredFixed value 0 ;;
                  addCommas floored currency 0 in
  match suffix with
  | Some policy =>
      if policy =? "decimals" then
        decimalNumber <- getFlooredFixed value 2 ;;
        addCommas decimalNumber currency 2
      else if policy =? "humanize" then
        getHumanizedAmount value currency
      else if policy =? "none" then
        floored <- getFlooredFixed value 0 ;;
        addCommas floored currency 0
      else fallback
  | None => fallback
  end.

(** *** The entry point [_Amount] and its development-mode checks *)

(** The kinds of value considered for the [value] prop at run time. *)
Inductive jsvalue : Type :=
| JsUndefined
| JsNull
| JsBoolean (b : bool)
| JsNumber (n : number)
| JsString (s : string)
| JsObject.

Definition typeof (v : jsvalue) : string :=
  match v with
  | JsUndefined => "undefined"
  | JsNull => "object"
  | JsBoolean _ => "boolean"
  | JsNumber _ => "number"
  | JsString _ => "string"
  | JsObject => "object"
  end.

(** The props [_Amount] reads before rendering ([None] for a prop that is
    left out). *)
Record AmountProps : Type := mkProps {
  prop_value : jsvalue;
  prop_suffix : option string;
  prop_intent : option string;
  prop_prefix : option string;
  prop_currency : option Currency
}.

(** What [_Amount] hands to the renderer: the prefix text and the formatted
    value.  When the checks are off and [value] is not a number, what is
    shown is left to the coercions of the host, which are not modelled. *)
Inductive rendering : Type :=
| Rendered (currencyPrefix renderedValue : string)
| HostCoerced.

(** Modelled from the spec: [throwBladeError] of [~utils/logger] is not among
    the sources; the spec has it raise a descriptive diagnostic, which here
    carries the module name and the message it is given. *)
Definition throwBladeError {A : Type} (message moduleName : string)
  : completion A :=
  Throw (BladeError moduleName message).

(** [currencyPrefixMapping] of [amountTokens], not among the sources. *)
Variable currencyPrefixMapping : Currency -> string -> string.

(** [_Amount] (lines 224-293) up to the values it passes on: the defaults of
    the props, the checks under [__DEV__], the prefix and the formatted
    value. *)
Definition _Amount (__DEV__ : bool) (props : AmountProps)
  : completion rendering :=
  let value := prop_value props in
  let suffix := match prop_suffix props with
                | Some s => s
                | None => "decimals"
                end in
  let intent := prop_intent props in
  let prefix := match prop_prefix props with
                | Some p => p
                | None => "currency-symbol"
                end in
  let currency := match prop_currency props with
                  | Some c => c
                  | None => "INR"
                  end in
  (if __DEV__ then
     (if negb (typeof value =? "number") then
        throwBladeError "`value` prop must be of type `number` for Amount."
                        "Amount"
      else Return tt) ;;;
     (match intent with
      | Some i =>
          if i =? "neutral" then
            throwBladeError "`neutral` intent is not supported." "Amount"
          else Return tt
      | None => Return tt
      end)
   else Return tt) ;;;
  let currencyPrefix := currencyPrefixMapping currency prefix in
  match value with
  | JsNumber n =>
      renderedValue <- formatAmountWithSuffix (Some suffix) n currency ;;
      Return (Rendered currencyPrefix renderedValue)
  | _ => Return HostCoerced
  end.

End Tokens.

(** Modelled from the spec: the abbreviation tables of [amountTokens] are not
    among the sources; the spec speaks of tables in descending threshold order
    (billions > millions > thousands) with a thousand rule of symbol "K" as
    the smallest threshold.  This table serves the concrete evaluations. *)
Definition sampleAbbreviations (currency : Currency)
  : list CurrencyAbbreviation :=
  [ mkAbbreviation (Finite 1000000000) "B";
    mkAbbreviation (Finite 1000000) "M";
    mkAbbreviation (Finite 1000) "K" ].

(** Modelled from the spec: [currencyPrefixMapping] of [amountTokens] is not
    among the sources; the spec speaks of a currency-to-symbol/code mapping.
    This one shows the currency code for either kind of prefix, and serves
    the concrete evaluations. *)
Definition samplePrefixMapping (currency : Currency) (prefix : string)
  : string :=
  currency.

(** *** Colours, weights and the split display *)

(** The sizes of [AmountProps] (lines 40-51). *)
Definition sizes : list string :=
  [ "body-medium-bold"; "body-small"; "body-small-bold"; "body-medium";
    "body-medium-bold"; "heading-small"; "heading-small-bold";
    "heading-large"; "heading-large-bold"; "title-small"; "title-medium" ].

Record ColorProps : Type := mkColors {
  amountValueColor : string;
  affixColor : string
}.

(** [getTextColorProps({ intent })] (lines 85-94); [!intent] holds for
    [undefined] and for the empty string. *)
Definition getTextColorProps (intent : option string) : ColorProps :=
  let props := mkColors "surface.text.normal.lowContrast"
                        "surface.text.muted.lowContrast" in
  match intent with
  | None | Some EmptyString => props
  | Some intent =>
      mkColors ("feedback.text." ++ intent ++ ".lowContrast")
               ("feedback.text." ++ intent ++ ".lowContrast")
  end.

(** [getCurrencyWeight(isAffixSubtle, size)] (lines 216-222) *)
Definition getCurrencyWeight (isAffixSubtle : bool) (size : string) : string :=
  if isAffixSubtle || startsWith size "bold" then "bold" else "regular".

(** A [BaseText] of the rendered tree, by the props that do not come from
    the font-size and line-height tables of [amountTokens] (not among the
    sources): its text, [fontWeight] and [color]. *)
Record BaseText : Type := mkText {
  text : string;
  fontWeight : string;
  color : string
}.

(** [AmountValue] (lines 103-155): the texts it renders, one for the
    integer part with its point and one for the decimals when the suffix is
    "decimals" and the affix is subtle, the whole value otherwise.
    [value.split('.')[1]] is [undefined] when there is no point, and
    [decimal || '00'] replaces [undefined] and the empty string. *)
Definition AmountValue (value : string) (size : string)
    (amountValueColor : string) (isAffixSubtle : bool)
    (suffix : option string) (affixColor : string) : list BaseText :=
  let affixFontWeight := if isAffixSubtle then "regular" else "bold" in
  let valueForWeight :=
    if includes size "bold" || startsWith size "title" then "bold"
    else "regular" in
  if match suffix with Some s => s =? "decimals" | None => false end
     && isAffixSubtle
  then
    let integer := nth 0 (split value ".") EmptyString in
    let decimal := nth_error (split value ".") 1 in
    [ mkText (integer ++ ".") valueForWeight amountValueColor;
      mkText (match decimal with
              | None | Some EmptyString => "00"
              | Some d => d
              end) affixFontWeight affixColor ]
  else
    [ mkText value valueForWeight amountValueColor ].

(** The [BaseText] of the currency prefix in [_Amount] (lines 251-281):
    [currencyColor] and [currencyWeight] as [_Amount] computes them from
    [getTextColorProps] and [getCurrencyWeight]. *)
Definition currencyText (currencyPrefix : string) (isAffixSubtle : bool)
    (size : string) (intent : option string) : BaseText :=
  let colors := getTextColorProps intent in
  let currencyColor :=
    if isAffixSubtle then affixColor colors else amountValueColor colors in
  let currencyWeight := getCurrencyWeight isAffixSubtle size in
  mkText currencyPrefix currencyWeight currencyColor.

(** The [BaseText]s of the tree [_Amount] returns (lines 262-292): the
    currency prefix, then what [AmountValue] renders for the formatted
    value, with the colours of [getTextColorProps]. *)
Definition AmountTexts (currencyPrefix renderedValue size : string)
    (isAffixSubtle : bool) (suffix : string) (intent : option string)
  : list BaseText :=
  let colors := getTextColorProps intent in
  currencyText currencyPrefix isAffixSubtle size intent
  :: AmountValue renderedValue size (amountValueColor colors) isAffixSubtle
       (Some suffix) (affixColor colors).

End Amount.

(** * Properties *)

Import Js Amount.

(** Settles the range test of [toFixed] and [toLocaleString] from a proof
    [H] that the number of digits asked for is at most
    [max_fraction_digits]. *)
Ltac in_range H :=
  match goal with
  | |- context [(max_fraction_digits <? ?f)%nat] =>
      replace (max_fraction_digits <? f)%nat with false
        by (symmetry; apply Nat.ltb_ge; exact H)
  end.

(** ** Decimal digits *)

Section Digits.

Local Open Scope list_scope.

Lemma digit_cases (n : Z) :
  let r := n mod 10 in
  r = 0 \/ r = 1 \/ r = 2 \/ r = 3 \/ r = 4 \/ r = 5 \/ r = 6 \/ r = 7
  \/ r = 8 \/ r = 9.
Proof.
  intros r. assert (0 <= r < 10) by (apply Z.mod_pos_bound; lia). lia.
Qed.

Lemma is_digit_digit_char (n : Z) : is_digit (digit_char n) = true.
Proof.
  unfold digit_char.
  destruct (digit_cases n) as [H|[H|[H|[H|[H|[H|[H|[H|[H|H]]]]]]]]];
    rewrite H; reflexivity.
Qed.

Lemma digit_val_digit_char (n : Z) : digit_val (digit_char n) = n mod 10.
Proof.
  unfold digit_char.
  destruct (digit_cases n) as [H|[H|[H|[H|[H|[H|[H|[H|[H|H]]]]]]]]];
    rewrite H; reflexivity.
Qed.

Lemma digit_char_zero (m : Z) : digit_char (m * 10) = "0"%char.
Proof.
  unfold digit_char. rewrite Z.mod_mul by lia. reflexivity.
Qed.

Lemma length_digits_fixed (k : nat) (m : Z) :
  List.length (digits_fixed k m) = k.
Proof.
  revert m. induction k as [| k IH]; intros m; simpl; [reflexivity|].
  rewrite length_app, IH. simpl. lia.
Qed.

Lemma Forall_digits_fixed (k : nat) (m : Z) :
  Forall (fun c => is_digit c = true) (digits_fixed k m).
Proof.
  revert m. induction k as [| k IH]; intros m; simpl; [constructor|].
  apply Forall_app. split; [apply IH|].
  constructor; [apply is_digit_digit_char | constructor].
Qed.

Lemma Forall_digits (m : Z) : Forall (fun c => is_digit c = true) (digits m).
Proof. apply Forall_digits_fixed. Qed.

(** Digits of a multiple of a power of ten end in zeros. *)
Lemma digits_fixed_shift (k j : nat) (m : Z) :
  digits_fixed (j + k) (m * 10 ^ Z.of_nat j)
  = digits_fixed k m ++ repeat "0"%char j.
Proof.
  revert m. induction j as [| j IH]; intros m.
  - simpl. now rewrite Z.mul_1_r, app_nil_r.
  - replace (m * 10 ^ Z.of_nat (S j)) with ((m * 10 ^ Z.of_nat j) * 10)
      by (rewrite Nat2Z.inj_succ, Z.pow_succ_r; lia).
    cbn [Nat.add digits_fixed].
    rewrite Z.div_mul by lia. rewrite IH, digit_char_zero.
    rewrite <- app_assoc. f_equal.
    change ("0"%char :: repeat "0"%char j) with (repeat "0"%char (S j)).
    now rewrite <- repeat_cons.
Qed.

Lemma parse_digits_app (acc : Z) (s1 s2 : list ascii) :
  parse_digits acc (s1 ++ s2)
  = match parse_digits acc s1 with
    | Some a => parse_digits a s2
    | None => None
    end.
Proof.
  revert acc. induction s1 as [| c s1 IH]; intros acc; simpl; [reflexivity|].
  destruct (is_digit c); [apply IH | reflexivity].
Qed.

Lemma parse_digits_fixed (k : nat) (acc m : Z) :
  parse_digits acc (digits_fixed k m)
  = Some (acc * 10 ^ Z.of_nat k + m mod 10 ^ Z.of_nat k).
Proof.
  revert acc m. induction k as [| k IH]; intros acc m.
  - simpl. rewrite Z.mod_1_r. f_equal. lia.
  - cbn [digits_fixed]. rewrite parse_digits_app, IH. cbn [parse_digits].
    rewrite is_digit_digit_char, digit_val_digit_char. f_equal.
    rewrite Nat2Z.inj_succ, Z.pow_succ_r by lia.
    rewrite (Z.rem_mul_r m 10 (10 ^ Z.of_nat k)) by lia. lia.
Qed.

Lemma parse_digits_zeros (acc : Z) (z : nat) :
  parse_digits acc (repeat "0"%char z) = Some (acc * 10 ^ Z.of_nat z).
Proof.
  revert acc. induction z as [| z IH]; intros acc.
  - simpl. f_equal. lia.
  - cbn [repeat parse_digits]. change (is_digit "0") with true. cbv iota.
    rewrite IH. f_equal. change (digit_val "0") with 0.
    rewrite Nat2Z.inj_succ, Z.pow_succ_r by lia. ring.
Qed.

Lemma num_digits_fuel_bound (f : nat) (m : Z) :
  0 <= m < 2 ^ (Z.of_nat f + 3) ->
  m < 10 ^ Z.of_nat (num_digits_fuel f m).
Proof.
  revert m. induction f as [| f IH]; intros m Hm.
  - simpl in *. lia.
  - cbn [num_digits_fuel]. destruct (Z.ltb_spec m 10) as [Hlt | Hge].
    + simpl. lia.
    + rewrite Nat2Z.inj_succ, Z.pow_succ_r by lia.
      assert (m / 10 < 10 ^ Z.of_nat (num_digits_fuel f (m / 10))).
      { apply IH. split; [apply Z.div_pos; lia|].
        apply Z.div_lt_upper_bound; [lia|].
        replace (Z.of_nat (S f) + 3) with (Z.succ (Z.of_nat f + 3)) in Hm by lia.
        rewrite Z.pow_succ_r in Hm by lia. lia. }
      assert (m < 10 * (m / 10 + 1)).
      { pose proof (Z.mod_pos_bound m 10). pose proof (Z.div_mod m 10). lia. }
      nia.
Qed.

Lemma num_digits_bound (m : Z) : 0 <= m -> m < 10 ^ Z.of_nat (num_digits m).
Proof.
  intros Hm. apply num_digits_fuel_bound. split; [exact Hm|].
  destruct (Z.eq_dec m 0) as [-> | Hnz]; [simpl; lia|].
  rewrite Z2Nat.id by apply Z.log2_nonneg.
  assert (m < 2 ^ Z.succ (Z.log2 m)) by (apply Z.log2_spec; lia).
  assert (2 ^ Z.succ (Z.log2 m) <= 2 ^ (Z.log2 m + 3))
    by (apply Z.pow_le_mono_r; lia).
  lia.
Qed.

Lemma num_digits_pos (m : Z) : (1 <= num_digits m)%nat.
Proof.
  unfold num_digits. destruct (Z.to_nat (Z.log2 m)); simpl; [lia|].
  destruct (m <? 10); lia.
Qed.

Lemma parse_digits_digits (m : Z) :
  0 <= m -> parse_digits 0 (digits m) = Some m.
Proof.
  intros Hm. unfold digits. rewrite parse_digits_fixed. f_equal.
  rewrite Z.mod_small; [lia|]. split; [exact Hm | now apply num_digits_bound].
Qed.

Lemma digits_nonempty (m : Z) : digits m <> [].
Proof.
  intros H. apply (f_equal (@List.length ascii)) in H.
  unfold digits in H. rewrite length_digits_fixed in H. simpl in H.
  pose proof (num_digits_pos m). lia.
Qed.

Lemma strip_zeros_rev_spec (keep : nat) (r : list ascii) :
  exists z,
    r = repeat "0"%char z ++ strip_zeros_rev keep r
    /\ (Nat.min keep (List.length r)
        <= List.length (strip_zeros_rev keep r))%nat.
Proof.
  induction r as [| c r IH].
  - exists O. simpl. split; [reflexivity | lia].
  - cbn [strip_zeros_rev].
    destruct (Nat.ltb_spec keep (List.length (c :: r))) as [Hlt | Hge];
      cbn [andb].
    + destruct (Ascii.eqb_spec c "0"%char) as [-> | Hc].
      * destruct IH as (z & Hr & Hlen). exists (S z). simpl. split.
        -- now rewrite <- Hr.
        -- simpl in Hlt. lia.
      * exists O. simpl. split; [reflexivity | lia].
    + exists O. simpl. split; [reflexivity | lia].
Qed.

Lemma strip_trailing_zeros_spec (keep : nat) (ds : list ascii) :
  exists z,
    ds = strip_trailing_zeros keep ds ++ repeat "0"%char z
    /\ (Nat.min keep (List.length ds)
        <= List.length (strip_trailing_zeros keep ds))%nat.
Proof.
  unfold strip_trailing_zeros.
  destruct (strip_zeros_rev_spec keep (rev ds)) as (z & Hr & Hlen).
  exists z. split.
  - rewrite <- (rev_involutive ds) at 1. rewrite Hr at 1.
    now rewrite rev_app_distr, rev_repeat.
  - now rewrite length_rev in *.
Qed.

Lemma length_strip_trailing_zeros (keep : nat) (ds : list ascii) :
  (Nat.min keep (List.length ds)
   <= List.length (strip_trailing_zeros keep ds) <= List.length ds)%nat.
Proof.
  destruct (strip_trailing_zeros_spec keep ds) as (z & Hds & Hlen).
  split; [exact Hlen|]. rewrite Hds at 2. rewrite length_app. lia.
Qed.

Lemma Forall_strip_trailing_zeros (P : ascii -> Prop) (keep : nat)
    (ds : list ascii) :
  Forall P ds -> Forall P (strip_trailing_zeros keep ds).
Proof.
  destruct (strip_trailing_zeros_spec keep ds) as (z & Hds & _).
  intros H. rewrite Hds in H. now apply Forall_app in H.
Qed.

(** The zeros that pad a fraction of [keep] digits are all dropped. *)
Lemma strip_trailing_zeros_padding (ds : list ascii) (j : nat) :
  strip_trailing_zeros (List.length ds) (ds ++ repeat "0"%char j) = ds.
Proof.
  unfold strip_trailing_zeros. rewrite rev_app_distr, rev_repeat.
  assert (H : strip_zeros_rev (List.length ds) (repeat "0"%char j ++ rev ds)
              = rev ds).
  { induction j as [| j IH].
    - simpl. destruct (rev ds) as [| c r] eqn:E; [reflexivity|].
      cbn [strip_zeros_rev]. rewrite <- E, length_rev.
      now rewrite Nat.ltb_irrefl.
    - cbn [repeat app strip_zeros_rev].
      replace (List.length ds <? _)%nat with true.
      + exact IH.
      + symmetry. apply Nat.ltb_lt. simpl.
        rewrite length_app, repeat_length, length_rev. lia. }
  rewrite H. apply rev_involutive.
Qed.

Lemma split_at_app (p : ascii -> bool) (l r : list ascii) :
  Forall (fun c => p c = false) l ->
  split_at p (l ++ r)
  = (l ++ fst (split_at p r), snd (split_at p r)).
Proof.
  induction 1 as [| c l Hc _ IH]; simpl.
  - now destruct (split_at p r).
  - rewrite Hc, IH. reflexivity.
Qed.

Lemma Forall_group_rev (P : ascii -> Prop) (size cnt : nat) (r : list ascii) :
  P ","%char -> Forall P r -> Forall P (group_rev size cnt r).
Proof.
  intros Hc H. revert cnt. induction H as [| c r Hx _ IH]; intros cnt; simpl.
  - constructor.
  - destruct cnt; repeat constructor; auto.
Qed.

Lemma Forall_group_digits (P : ascii -> Prop) (l : locale) (ds : list ascii) :
  P ","%char -> Forall P ds -> Forall P (group_digits l ds).
Proof.
  intros Hc H. unfold group_digits. apply Forall_rev.
  apply Forall_group_rev; [exact Hc | now apply Forall_rev].
Qed.

Lemma digit_not_point (c : ascii) : is_digit c = true -> is_point c = false.
Proof.
  destruct c as [[] [] [] [] [] [] [] []]; intros H;
    solve [reflexivity | discriminate H].
Qed.

Lemma digit_not_exponent_mark (c : ascii) :
  is_digit c = true -> is_exponent_mark c = false.
Proof.
  destruct c as [[] [] [] [] [] [] [] []]; intros H;
    solve [reflexivity | discriminate H].
Qed.

Lemma digit_not_sign (c : ascii) :
  is_digit c = true ->
  Ascii.eqb c "-" = false /\ Ascii.eqb c "+" = false
  /\ Ascii.eqb c "I" = false.
Proof.
  destruct c as [[] [] [] [] [] [] [] []]; intros H;
    solve [repeat split | discriminate H].
Qed.

Lemma split_sign_digit (c : ascii) (r : list ascii) :
  is_digit c = true -> split_sign (c :: r) = (false, c :: r).
Proof.
  intros H. destruct (digit_not_sign c H) as (Hm & Hp & _).
  unfold split_sign. now rewrite Hm, Hp.
Qed.

Lemma Forall_sign_prefix (P : ascii -> Prop) (negative : bool) :
  P "-"%char -> Forall P (sign_prefix negative).
Proof. intros H. destruct negative; repeat constructor; exact H. Qed.

End Digits.

(** ** Rounding and comparison *)

Section Rounding.

Local Open Scope Q_scope.

Lemma Qfloor_unique (x : Q) (n : Z) :
  inject_Z n <= x -> x < inject_Z (n + 1) -> Qfloor x = n.
Proof.
  intros Hle Hlt.
  pose proof (Qfloor_le x) as H1. pose proof (Qlt_floor x) as H2.
  assert (Qfloor x < n + 1)%Z
    by (rewrite Zlt_Qlt; eapply Qle_lt_trans; eassumption).
  assert (n < Qfloor x + 1)%Z
    by (rewrite Zlt_Qlt; eapply Qle_lt_trans; eassumption).
  lia.
Qed.

Lemma pow10_pos (k : nat) : (0 < 10 ^ Z.of_nat k)%Z.
Proof. apply Z.pow_pos_nonneg; lia. Qed.

Lemma inject_pow10_pos (k : nat) : 0 < inject_Z (10 ^ Z.of_nat k).
Proof. change 0 with (inject_Z 0). rewrite <- Zlt_Qlt. apply pow10_pos. Qed.

Lemma pow100_pos (d : nat) : 0 < inject_Z (100 ^ Z.of_nat d).
Proof.
  change 0 with (inject_Z 0). rewrite <- Zlt_Qlt.
  apply Z.pow_pos_nonneg; lia.
Qed.

Lemma pow100_pow10 (d : nat) :
  (100 ^ Z.of_nat d = 10 ^ Z.of_nat d * 10 ^ Z.of_nat d)%Z.
Proof. change 100%Z with (10 * 10)%Z. apply Z.pow_mul_l. Qed.

Lemma Qpower10_neg (f : nat) :
  inject_Z 10 ^ (0 - Z.of_nat f) == / inject_Z (10 ^ Z.of_nat f).
Proof.
  rewrite Z.sub_0_l, Qpower_opp, Zpower_Qpower by lia. reflexivity.
Qed.

(** A value that already is a whole number of units of [10^-f] rounds to
    itself. *)
Lemma round_half_up_exact (a : Q) (f : nat) (n : Z) :
  a * inject_Z (10 ^ Z.of_nat f) == inject_Z n -> round_half_up a f = n.
Proof.
  intros H. unfold round_half_up. apply Qfloor_unique; rewrite H.
  - lra.
  - rewrite inject_Z_plus. change (inject_Z 1) with 1. lra.
Qed.

Lemma round_half_up_nonneg (a : Q) (f : nat) :
  0 <= a -> (0 <= round_half_up a f)%Z.
Proof.
  intros Ha. unfold round_half_up.
  change 0%Z with (Qfloor 0). apply Qfloor_resp_le.
  pose proof (inject_pow10_pos f). nra.
Qed.


Lemma fin_eq (p q : Q) : p == q -> fin p = fin q.
Proof. intros H. unfold fin. f_equal. now apply Qred_complete. Qed.

Lemma Qlt_bool_iff (x y : Q) : Qlt_bool x y = true <-> (x < y)%Q.
Proof.
  unfold Qlt_bool. rewrite negb_true_iff. split.
  - intros H. apply Qnot_le_lt. intros Hle.
    apply Qle_bool_iff in Hle. congruence.
  - intros H. destruct (Qle_bool y x) eqn:E; [|reflexivity].
    apply Qle_bool_iff in E. exfalso. exact (Qlt_not_le _ _ H E).
Qed.

Lemma Qlt_bool_true (x y : Q) : x < y -> Qlt_bool x y = true.
Proof. apply Qlt_bool_iff. Qed.

Lemma Qlt_bool_false (x y : Q) : y <= x -> Qlt_bool x y = false.
Proof.
  intros H. destruct (Qlt_bool x y) eqn:E; [|reflexivity].
  apply Qlt_bool_iff in E. exfalso. exact (Qlt_not_le _ _ E H).
Qed.

Lemma Qle_bool_false (x y : Q) : y < x -> Qle_bool x y = false.
Proof.
  intros H. destruct (Qle_bool x y) eqn:E; [|reflexivity].
  apply Qle_bool_iff in E. exfalso. exact (Qlt_not_le _ _ H E).
Qed.

Lemma Qeq_bool_false (x y : Q) : ~ x == y -> Qeq_bool x y = false.
Proof.
  intros H. destruct (Qeq_bool x y) eqn:E; [|reflexivity].
  apply Qeq_bool_iff in E. contradiction.
Qed.


(** [>=] of the host is the order of the values. *)
Lemma ge_le (a b : number) : Js.ge a b = true <-> Js.le b a.
Proof.
  destruct a as [| s | p], b as [| t | q]; simpl;
    try (split; [discriminate | tauto]).
  - destruct s, t; simpl; intuition congruence.
  - destruct s; simpl; intuition congruence.
  - destruct t; simpl; intuition congruence.
  - apply Qle_bool_iff.
Qed.

End Rounding.

(** ** Terminating decimals *)

Section Terminating.

Lemma coprime_divides_pow10 (D : Z) (m : nat) :
  Z.gcd D 10 = 1 -> (D | 10 ^ Z.of_nat m) -> (D | 1).
Proof.
  intros Hg. induction m as [| m IH]; intros H; [exact H|].
  apply IH. rewrite Nat2Z.inj_succ, Z.pow_succ_r in H by lia.
  now apply (Z.gauss D 10).
Qed.

(** A divisor of a power of ten divides the power of ten whose exponent is
    its bit length. *)
Lemma divides_pow10_bits (k m : nat) (D : Z) :
  0 < D < 2 ^ Z.of_nat k -> (D | 10 ^ Z.of_nat m) -> (D | 10 ^ Z.of_nat k).
Proof.
  revert D. induction k as [| k IH]; intros D HD Hm.
  - simpl in HD. lia.
  - destruct (Z.eq_dec D 1) as [-> | Hne]; [apply Z.divide_1_l|].
    pose proof (Z.gcd_nonneg D 10) as Hg0.
    destruct (Z.gcd_divide_l D 10) as [D' HD'].
    destruct (Z.gcd_divide_r D 10) as [t Ht].
    assert (Hg1 : Z.gcd D 10 <> 1).
    { intros Hg. pose proof (coprime_divides_pow10 D m Hg Hm) as H1.
      apply Z.divide_1_r_nonneg in H1; lia. }
    assert (Hg2 : Z.gcd D 10 <> 0) by (intros E; rewrite E in Ht; lia).
    assert (Hg : 2 <= Z.gcd D 10) by lia.
    rewrite Nat2Z.inj_succ, Z.pow_succ_r in * by lia.
    assert (HIH : (D' | 10 ^ Z.of_nat k)).
    { apply IH; [nia|].
      apply Z.divide_trans with D; [|exact Hm].
      exists (Z.gcd D 10). lia. }
    destruct HIH as [u Hu]. exists (t * u).
    rewrite Hu. rewrite Ht at 1. rewrite HD' at 2. ring.
Qed.

Lemma Qden_Qred_divides (n : Z) (d : positive) :
  (Z.pos (Qden (Qred (n # d))) | Z.pos d).
Proof.
  unfold Qred. pose proof (Z.ggcd_correct_divisors n (Z.pos d)) as H.
  pose proof (Z.ggcd_gcd n (Z.pos d)) as Hg.
  pose proof (Z.gcd_nonneg n (Z.pos d)) as Hg0.
  destruct (Z.ggcd n (Z.pos d)) as (g & aa & bb). simpl in *.
  destruct H as [_ Hb]. subst g.
  assert (0 < bb) by nia.
  rewrite Z2Pos.id by assumption. exists (Z.gcd n (Z.pos d)). lia.
Qed.

(** For a terminating decimal [decimal_scale] is exact. *)
Lemma decimal_scale_exact (q : Q) (M : Z) (m : nat) :
  (q * inject_Z (10 ^ Z.of_nat m) == inject_Z M)%Q ->
  exists j N,
    decimal_scale q = (j, N)
    /\ (q * inject_Z (10 ^ Z.of_nat j) == inject_Z N)%Q.
Proof.
  intros HM. unfold decimal_scale.
  set (D := Z.pos (Qden (Qred q))).
  set (j := S (Z.to_nat (Z.log2 D))).
  assert (HD : (D | 10 ^ Z.of_nat j)).
  { apply (divides_pow10_bits j m).
    - split; [reflexivity|]. unfold j. rewrite Nat2Z.inj_succ.
      rewrite Z2Nat.id by apply Z.log2_nonneg.
      apply Z.log2_spec. reflexivity.
    - pose proof (pow10_pos m) as Hp.
      assert (Hq : (q == M # Z.to_pos (10 ^ Z.of_nat m))%Q).
      { rewrite Qmake_Qdiv, Z2Pos.id by exact Hp.
        pose proof (inject_pow10_pos m). rewrite <- HM. field. lra. }
      unfold D. rewrite (Qred_complete _ _ Hq).
      pose proof (Qden_Qred_divides M (Z.to_pos (10 ^ Z.of_nat m))) as H.
      now rewrite Z2Pos.id in H by exact Hp. }
  destruct HD as [t Ht].
  assert (Hx : (q * inject_Z (10 ^ Z.of_nat j)
                == inject_Z (Qnum (Qred q) * t))%Q).
  { rewrite <- (Qred_correct q) at 1. rewrite Ht.
    destruct (Qred q) as [a b]. unfold D. simpl.
    rewrite Qmult_inject_Z_r. rewrite Z.mul_assoc.
    apply Qreduce_den_inject_Z_r. }
  exists j, (Qnum (Qred q) * t)%Z.
  rewrite (Qfloor_comp _ _ Hx), Qfloor_Z.
  replace (Qeq_bool _ _) with true; [split; [reflexivity | exact Hx]|].
  symmetry. apply Qeq_bool_iff. now symmetry.
Qed.

End Terminating.

(** ** Reading back what the host prints *)

Section ReadBack.

Local Open Scope list_scope.

Lemma parse_exponent_plus (e : Z) :
  0 <= e -> parse_exponent (Some ("+"%char :: digits e)) = Some e.
Proof.
  intros He. unfold parse_exponent.
  change (split_sign ("+"%char :: digits e)) with (false, digits e).
  cbv beta iota.
  destruct (digits e) as [| c r] eqn:E; [now apply digits_nonempty in E|].
  rewrite <- E, parse_digits_digits by exact He. reflexivity.
Qed.

(** A printed decimal: integer digits, then a point and fraction digits if
    there are any, then an exponent if there is one. *)
Lemma parse_decimal_printed (ip fs : list ascii) (ex : option (list ascii))
    (m e : Z) :
  ip <> [] ->
  Forall (fun c => is_digit c = true) ip ->
  Forall (fun c => is_digit c = true) fs ->
  parse_digits 0 (ip ++ fs) = Some m ->
  parse_exponent ex = Some e ->
  parse_decimal
    (ip ++ match fs with [] => [] | _ :: _ => "."%char :: fs end
        ++ match ex with None => [] | Some x => "e"%char :: x end)
  = Some (inject_Z m * inject_Z 10 ^ (e - Z.of_nat (List.length fs)))%Q.
Proof.
  intros Hne Hip Hfs Hm He. unfold parse_decimal.
  set (pt := match fs with [] => [] | _ :: _ => "."%char :: fs end).
  assert (Hmark : Forall (fun c => is_exponent_mark c = false) (ip ++ pt)).
  { apply Forall_app. split.
    - eapply Forall_impl; [|exact Hip]. apply digit_not_exponent_mark.
    - unfold pt. destruct fs as [| c fs']; [constructor|].
      constructor; [reflexivity|].
      eapply Forall_impl; [|exact Hfs]. apply digit_not_exponent_mark. }
  rewrite app_assoc, (split_at_app _ _ _ Hmark).
  assert (Hex : split_at is_exponent_mark
                  match ex with None => [] | Some x => "e"%char :: x end
                = ([], ex)) by (destruct ex; reflexivity).
  rewrite Hex. cbn [fst snd]. rewrite app_nil_r.
  assert (Hpoint : Forall (fun c => is_point c = false) ip)
    by (eapply Forall_impl; [|exact Hip]; apply digit_not_point).
  rewrite (split_at_app _ _ _ Hpoint).
  assert (Hpt : split_at is_point pt
                = ([], match fs with [] => None | _ :: _ => Some fs end))
    by (unfold pt; destruct fs; reflexivity).
  rewrite Hpt. cbn [fst snd]. rewrite app_nil_r.
  replace (match match fs with [] => None | _ :: _ => Some fs end with
           | Some fs0 => fs0
           | None => []
           end) with fs by (destruct fs; reflexivity).
  rewrite Hm, He.
  destruct ip as [| c ip']; [contradiction|]. reflexivity.
Qed.

(** [Number] of a printed decimal with its sign. *)
Lemma Number_printed (negative : bool) (body : list ascii) (c : ascii)
    (rest : list ascii) (q : Q) :
  body = c :: rest ->
  is_digit c = true ->
  parse_decimal body = Some q ->
  Number (string_of_list_ascii (sign_prefix negative ++ body))
  = fin (if negative then - q else q).
Proof.
  intros -> Hc Hq. unfold Number.
  rewrite list_ascii_of_string_of_list_ascii.
  destruct (digit_not_sign c Hc) as (Hm & Hp & HI).
  assert (Hinf : String.eqb (string_of_list_ascii (c :: rest)) "Infinity"
                 = false) by (simpl; now rewrite HI).
  destruct negative; simpl sign_prefix; cbn [app].
  - cbn [split_sign Ascii.eqb Bool.eqb]. simpl (Ascii.eqb "-" "-").
    cbv iota. now rewrite Hinf, Hq.
  - rewrite (split_sign_digit c rest Hc). now rewrite Hinf, Hq.
Qed.

End ReadBack.

Local Open Scope string_scope.
Local Open Scope completion_scope.

(** ** [Number(x.toFixed(f))] *)

Section NumberOfToFixed.

Local Open Scope Q_scope.

(** Below [10^21] in magnitude, [Number(x.toFixed(f))] is [x] rounded to the
    nearest multiple of [10^-f], a tie going away from zero. *)
Lemma Number_toFixed_small (q : Q) (f : nat) :
  (f <= max_fraction_digits)%nat ->
  Qabs q < inject_Z (10 ^ 21) ->
  exists s,
    toFixed (Finite q) f = Return s
    /\ Number s
       = fin ((if Qlt_bool q 0 then - (1) else 1)
              * (inject_Z (round_half_up (Qabs q) f)
                 / inject_Z (10 ^ Z.of_nat f))).
Proof.
  intros Hf Hsmall. unfold toFixed.
  in_range Hf.
  rewrite (Qle_bool_false _ _ Hsmall).
  eexists. split; [reflexivity|].
  set (n := round_half_up (Qabs q) f).
  set (p := (10 ^ Z.of_nat f)%Z).
  assert (Hn : (0 <= n)%Z) by (apply round_half_up_nonneg, Qabs_nonneg).
  assert (Hp : (0 < p)%Z) by apply pow10_pos.
  assert (Hip : (0 <= n / p)%Z) by (apply Z.div_pos; lia).
  set (ip := digits (n / p)).
  set (fs := digits_fixed f (n mod p)).
  assert (Htail : match f with
                  | O => []
                  | S _ => "."%char :: fs
                  end
                  = (match fs with [] => [] | _ :: _ => "."%char :: fs end
                     ++ [])%list).
  { rewrite app_nil_r. unfold fs. destruct f as [| f']; [reflexivity|].
    destruct (digits_fixed (S f') (n mod p)) as [| c r] eqn:E;
      [|reflexivity].
    apply (f_equal (@List.length ascii)) in E.
    rewrite length_digits_fixed in E. discriminate E. }
  rewrite Htail.
  assert (Hparse : parse_digits 0 (ip ++ fs) = Some n).
  { unfold ip, fs. rewrite parse_digits_app, parse_digits_digits by exact Hip.
    rewrite parse_digits_fixed. f_equal. fold p.
    rewrite Z.mod_mod by lia. pose proof (Z.div_mod n p). lia. }
  pose proof (parse_decimal_printed ip fs None n 0 (digits_nonempty _)
                (Forall_digits _) (Forall_digits_fixed _ _) Hparse eq_refl)
    as Hdec.
  destruct ip as [| c rest] eqn:Eip; [now apply digits_nonempty in Eip|].
  assert (Hc : is_digit c = true).
  { pose proof (Forall_digits (n / p)) as H. fold ip in H. rewrite Eip in H.
    now inversion H. }
  erewrite Number_printed; [|reflexivity | exact Hc | exact Hdec].
  apply fin_eq. unfold fs. rewrite length_digits_fixed.
  destruct (Qlt_bool q 0); rewrite Qpower10_neg; fold p; unfold Qdiv; ring.
Qed.

End NumberOfToFixed.

(** ** [Number(x.toString())] from [10^21] on *)

Section NumberOfToString.

Local Open Scope list_scope.

(** From [10^21] on a terminating decimal is printed with an exponent, and
    reading the print gives the value back. *)
Lemma toString_pos_large (a : Q) (j : nat) (N : Z) :
  decimal_scale a = (j, N) ->
  (a * inject_Z (10 ^ Z.of_nat j) == inject_Z N)%Q ->
  (inject_Z (10 ^ 21) <= a)%Q ->
  exists c rest a',
    toString_pos a = c :: rest
    /\ is_digit c = true
    /\ parse_decimal (c :: rest) = Some a'
    /\ (a' == a)%Q.
Proof.
  intros Hds HN Hbig. unfold toString_pos. rewrite Hds.
  set (all := digits N).
  destruct (strip_trailing_zeros_spec 1 all) as (z & Hall & Hk).
  pose proof (Forall_strip_trailing_zeros _ 1 all (Forall_digits N)) as Hsd.
  set (s := strip_trailing_zeros 1 all) in *.
  pose proof (pow10_pos j) as Hpj.
  assert (HNbig : 10 ^ (21 + Z.of_nat j) <= N).
  { rewrite Z.pow_add_r by lia. rewrite Zle_Qle, inject_Z_mult, <- HN.
    apply Qmult_le_compat_r; [exact Hbig|].
    apply Qlt_le_weak, inject_pow10_pos. }
  assert (HN0 : 0 < N).
  { assert (0 < 10 ^ (21 + Z.of_nat j)) by (apply Z.pow_pos_nonneg; lia).
    lia. }
  assert (HL : 21 + Z.of_nat j < Z.of_nat (List.length all)).
  { unfold all, digits. rewrite length_digits_fixed.
    apply (Z.pow_lt_mono_r_iff 10); [lia | lia |].
    pose proof (num_digits_bound N). lia. }
  assert (Hlen : List.length all = (List.length s + z)%nat).
  { rewrite Hall at 1. now rewrite length_app, repeat_length. }
  assert (Hk1 : (1 <= List.length s)%nat) by lia.
  set (n := Z.of_nat (List.length all) - Z.of_nat j).
  assert (Hn : 22 <= n) by (unfold n; lia).
  replace (n <=? 21)%Z with false by (symmetry; apply Z.leb_gt; lia).
  replace (n <=? 0)%Z with false by (symmetry; apply Z.leb_gt; lia).
  rewrite !andb_false_r.
  assert (Hsuffix : exponent_suffix (n - 1)
                    = "e"%char :: "+"%char :: digits (n - 1)).
  { unfold exponent_suffix.
    replace (n - 1 <? 0)%Z with false by (symmetry; apply Z.ltb_ge; lia).
    now rewrite Z.abs_eq by lia. }
  rewrite Hsuffix.
  assert (Hform :
    (if (Z.of_nat (List.length s) =? 1)%Z
     then s ++ "e"%char :: "+"%char :: digits (n - 1)
     else firstn 1 s ++ "."%char :: skipn 1 s
                     ++ "e"%char :: "+"%char :: digits (n - 1))
    = firstn 1 s
      ++ match skipn 1 s with [] => [] | _ :: _ => "."%char :: skipn 1 s end
      ++ "e"%char :: "+"%char :: digits (n - 1)).
  { destruct s as [| c [| c2 s']]; [simpl in Hk1; lia | reflexivity |].
    replace (Z.of_nat (List.length (c :: c2 :: s')) =? 1)%Z with false
      by (symmetry; apply Z.eqb_neq; simpl List.length; lia).
    reflexivity. }
  rewrite Hform.
  (* the digits that are kept, read as an integer *)
  assert (Hparse : exists Sv, parse_digits 0 s = Some Sv
                              /\ N = Sv * 10 ^ Z.of_nat z).
  { pose proof (parse_digits_digits N (Z.lt_le_incl _ _ HN0)) as HpN.
    fold all in HpN. rewrite Hall, parse_digits_app in HpN.
    destruct (parse_digits 0 s) as [Sv |]; [|discriminate].
    exists Sv. split; [reflexivity|].
    rewrite parse_digits_zeros in HpN. now inversion HpN. }
  destruct Hparse as (Sv & HSv & HNS).
  assert (Hfs : firstn 1 s ++ skipn 1 s = s) by apply firstn_skipn.
  assert (Hne : firstn 1 s <> [])
    by (destruct s; [simpl in Hk1; lia | discriminate]).
  assert (Hd1 : Forall (fun c => is_digit c = true) (firstn 1 s))
    by (rewrite <- Hfs in Hsd; now apply Forall_app in Hsd).
  assert (Hd2 : Forall (fun c => is_digit c = true) (skipn 1 s))
    by (rewrite <- Hfs in Hsd; now apply Forall_app in Hsd).
  rewrite <- Hfs in HSv at 1.
  pose proof (parse_decimal_printed (firstn 1 s) (skipn 1 s)
                (Some ("+"%char :: digits (n - 1))) Sv (n - 1)
                Hne Hd1 Hd2 HSv (parse_exponent_plus (n - 1) ltac:(lia)))
    as Hdec.
  destruct s as [| c s']; [simpl in Hk1; lia|].
  cbn [firstn skipn app] in *.
  eexists c, _, _. split; [reflexivity|].
  split; [now inversion Hsd|]. split; [exact Hdec|].
  (* the value *)
  replace (n - 1 - Z.of_nat (List.length s'))
    with (Z.of_nat z - Z.of_nat j)
    by (unfold n; rewrite Hlen; simpl List.length; lia).
  assert (H10 : ~ (inject_Z 10 == 0)%Q) by discriminate.
  rewrite Qpower_minus by exact H10.
  rewrite <- !Zpower_Qpower by lia.
  pose proof (inject_pow10_pos j) as Hj.
  apply (Qmult_inj_r _ _ (inject_Z (10 ^ Z.of_nat j))); [lra|].
  rewrite HN, HNS, inject_Z_mult. field. lra.
Qed.

Local Open Scope Q_scope.

(** From [10^21] on, [Number(x.toString())] is [x] for a terminating
    decimal. *)
Lemma Number_toString_large (q : Q) (M : Z) (m : nat) :
  q * inject_Z (10 ^ Z.of_nat m) == inject_Z M ->
  inject_Z (10 ^ 21) <= Qabs q ->
  Number (toString (Finite q)) = fin q.
Proof.
  intros HM Hbig.
  assert (H21 : 0 < inject_Z (10 ^ 21)) by reflexivity.
  assert (Hq0 : ~ q == 0).
  { intros E. rewrite E in Hbig. change (Qabs 0) with 0 in Hbig. lra. }
  assert (HMabs : Qabs q * inject_Z (10 ^ Z.of_nat m) == inject_Z (Z.abs M)).
  { change (inject_Z (Z.abs M)) with (Qabs (inject_Z M)).
    rewrite <- HM, Qabs_Qmult.
    now rewrite (Qabs_pos (inject_Z _))
      by apply Qlt_le_weak, inject_pow10_pos. }
  destruct (decimal_scale_exact _ _ _ HMabs) as (j & N & Hds & HN).
  destruct (toString_pos_large _ _ _ Hds HN Hbig)
    as (c & rest & a' & Hs & Hc & Hdec & Ha).
  unfold toString. rewrite (Qeq_bool_false _ _ Hq0), Hs.
  rewrite (Number_printed _ (c :: rest) c rest a' eq_refl Hc Hdec).
  apply fin_eq.
  destruct (Qlt_le_dec q 0) as [Hneg | Hpos].
  - rewrite (Qlt_bool_true _ _ Hneg), Ha, Qabs_neg by lra. ring.
  - rewrite (Qlt_bool_false _ _ Hpos), Ha. now apply Qabs_pos.
Qed.

End NumberOfToString.

(** ** [toString] prints no grouping separator *)

Section NoComma.

Local Open Scope list_scope.

Lemma Forall_toString_pos (P : ascii -> Prop) (q : Q) :
  (forall c, is_digit c = true -> P c) ->
  P "."%char -> P "e"%char -> P "+"%char -> P "-"%char ->
  Forall P (toString_pos q).
Proof.
  intros Hdigit Hpoint He Hplus Hminus. unfold toString_pos.
  destruct (decimal_scale q) as [j m].
  set (s := strip_trailing_zeros 1 (digits m)).
  assert (Hs : Forall P s).
  { apply Forall_strip_trailing_zeros.
    eapply Forall_impl; [|apply Forall_digits]. exact Hdigit. }
  assert (Hcut : forall k, Forall P (firstn k s) /\ Forall P (skipn k s)).
  { intros k. apply Forall_app. now rewrite firstn_skipn. }
  assert (Hfirst : forall k, Forall P (firstn k s)) by apply Hcut.
  assert (Hskip : forall k, Forall P (skipn k s)) by apply Hcut.
  assert (Hzeros : forall k, Forall P (repeat "0"%char k)).
  { intros k. apply Forall_forall. intros c Hc.
    apply repeat_spec in Hc. subst c. now apply Hdigit. }
  assert (Hexp : forall e, Forall P (exponent_suffix e)).
  { intros e. unfold exponent_suffix. constructor; [exact He|].
    constructor; [now destruct (e <? 0)%Z|].
    eapply Forall_impl; [|apply Forall_digits]. exact Hdigit. }
  repeat match goal with
         | |- context [if ?b then _ else _] => destruct b
         end;
    repeat first [ assumption
                 | apply Hfirst | apply Hskip | apply Hzeros | apply Hexp
                 | apply Forall_app; split
                 | apply Forall_cons
                 | now apply Hdigit ].
Qed.

Lemma toString_no_comma (v : number) :
  ~ In ","%char (list_ascii_of_string (toString v)).
Proof.
  assert (Hall : Forall (fun c => c <> ","%char)
                        (list_ascii_of_string (toString v))).
  { destruct v as [| s | q].
    - repeat constructor; discriminate.
    - destruct s; repeat constructor; discriminate.
    - unfold toString. destruct (Qeq_bool q 0).
      + repeat constructor; discriminate.
      + rewrite list_ascii_of_string_of_list_ascii. apply Forall_app. split.
        * apply Forall_sign_prefix. discriminate.
        * apply Forall_toString_pos; try discriminate.
          intros c Hc ->. discriminate Hc. }
  intros Hin. rewrite Forall_forall in Hall. now apply (Hall _ Hin).
Qed.

End NoComma.

(** ** [getFlooredFixed] *)

Section FlooredFixed.

Local Open Scope Q_scope.

Lemma toFixed_returns (x : number) (f : nat) :
  (f <= max_fraction_digits)%nat -> exists s, toFixed x f = Return s.
Proof.
  intros Hf. unfold toFixed.
  in_range Hf.
  destruct x as [| s | q]; try (eexists; reflexivity).
  destruct (Qle_bool _ _); eexists; reflexivity.
Qed.


Lemma getFlooredFixed_returns (v : number) (d : nat) :
  (d <= max_fraction_digits)%nat -> exists r, getFlooredFixed v d = Return r.
Proof.
  intros Hd. unfold getFlooredFixed.
  destruct (toFixed_returns (div (Math_floor (mul v (pow 100 d))) (pow 100 d))
              d Hd) as [s ->].
  eexists. reflexivity.
Qed.

(** The [roundedValue] of [getFlooredFixed] on a finite value: the value cut
    to a whole number of units of [100^-decimalPlaces]. *)
Lemma roundedValue_finite (q : Q) (d : nat) :
  exists w,
    div (Math_floor (mul (Finite q) (pow 100 d))) (pow 100 d) = Finite w
    /\ w == inject_Z (Qfloor (q * inject_Z (100 ^ Z.of_nat d)))
            / inject_Z (100 ^ Z.of_nat d).
Proof.
  pose proof (pow100_pos d) as HF.
  unfold pow, mul, Math_floor, div, fin.
  rewrite Qeq_bool_false by (rewrite Qred_correct; lra).
  eexists. split; [reflexivity|].
  rewrite !Qred_correct.
  assert (HFr : Qred (inject_Z (100 ^ Z.of_nat d))
                == inject_Z (100 ^ Z.of_nat d)) by apply Qred_correct.
  apply Qmult_comp; [|now rewrite HFr].
  now rewrite (Qfloor_comp _ _ (Qmult_comp _ _ (Qeq_refl q) _ _ HFr)).
Qed.

(** What [getFlooredFixed] returns on a finite value: with [w] the value cut
    to [2 * decimalPlaces] digits, [w] itself from [10^21] on, and below that
    [w] rounded to [decimalPlaces] digits, a tie going away from zero. *)
Lemma getFlooredFixed_finite (q : Q) (d : nat) :
  (d <= max_fraction_digits)%nat ->
  exists w,
    w == inject_Z (Qfloor (q * inject_Z (100 ^ Z.of_nat d)))
         / inject_Z (100 ^ Z.of_nat d)
    /\ getFlooredFixed (Finite q) d
       = Return (if Qle_bool (inject_Z (10 ^ 21)) (Qabs w) then fin w
                 else fin ((if Qlt_bool w 0 then - (1) else 1)
                           * (inject_Z (round_half_up (Qabs w) d)
                              / inject_Z (10 ^ Z.of_nat d)))).
Proof.
  intros Hd. destruct (roundedValue_finite q d) as (w & Hw & Hwv).
  exists w. split; [exact Hwv|].
  unfold getFlooredFixed. rewrite Hw.
  destruct (Qle_bool (inject_Z (10 ^ 21)) (Qabs w)) eqn:Ebig.
  - apply Qle_bool_iff in Ebig.
    assert (Hfix : toFixed (Finite w) d = Return (toString (Finite w))).
    { unfold toFixed.
      in_range Hd.
      apply Qle_bool_iff in Ebig. now rewrite Ebig. }
    rewrite Hfix. cbn [bind]. f_equal.
    apply (Number_toString_large w
             (Qfloor (q * inject_Z (100 ^ Z.of_nat d))) (d + d)); [|exact Ebig].
    rewrite Hwv, Nat2Z.inj_add, Z.pow_add_r, <- pow100_pow10 by lia.
    pose proof (pow100_pos d). field. lra.
  - assert (Hsmall : Qabs w < inject_Z (10 ^ 21)).
    { apply Qnot_le_lt. intros H. apply Qle_bool_iff in H. congruence. }
    destruct (Number_toFixed_small w d Hd Hsmall) as (s & Hs & HN).
    rewrite Hs. cbn [bind]. now rewrite HN.
Qed.



(** With no decimal places the scale is 1 and [getFlooredFixed] is the
    floor. *)
Lemma getFlooredFixed_0 (q : Q) :
  getFlooredFixed (Finite q) 0 = Return (fin (inject_Z (Qfloor q))).
Proof.
  destruct (getFlooredFixed_finite q 0) as (w & Hw & ->);
    [vm_compute; lia|].
  assert (Hfl : w == inject_Z (Qfloor q)).
  { rewrite Hw. change (inject_Z (100 ^ Z.of_nat 0)) with 1.
    rewrite (Qfloor_comp _ _ (Qmult_1_r q)). field. }
  f_equal. destruct (Qle_bool _ _); apply fin_eq; [exact Hfl|].
  assert (Habs : Qabs w * inject_Z (10 ^ Z.of_nat 0)
                 == inject_Z (Z.abs (Qfloor q))).
  { change (inject_Z (10 ^ Z.of_nat 0)) with 1. rewrite Qmult_1_r, Hfl.
    reflexivity. }
  rewrite (round_half_up_exact _ _ _ Habs).
  change (inject_Z (10 ^ Z.of_nat 0)) with 1.
  destruct (Qlt_le_dec w 0) as [Hneg | Hpos].
  - rewrite (Qlt_bool_true _ _ Hneg). rewrite Hfl in Hneg.
    change 0 with (inject_Z 0) in Hneg. rewrite <- Zlt_Qlt in Hneg.
    rewrite Z.abs_neq by lia. rewrite inject_Z_opp. field.
  - rewrite (Qlt_bool_false _ _ Hpos). rewrite Hfl in Hpos.
    change 0 with (inject_Z 0) in Hpos. rewrite <- Zle_Qle in Hpos.
    rewrite Z.abs_eq by lia. field.
Qed.


(** C1. [getFlooredFixed] rounds up: on 1234.567 with two places it returns
    1234.57, which exceeds the value; on 0.25 with one place, 0.3. *)
Theorem getFlooredFixed_rounds_up :
  getFlooredFixed (Finite (1234567 # 1000)) 2 = Return (Finite (123457 # 100))
  /\ (1234567 # 1000 < 123457 # 100)%Q
  /\ getFlooredFixed (Finite (1 # 4)) 1 = Return (Finite (3 # 10))
  /\ (1 # 4 < 3 # 10)%Q.
Proof.
  split; [vm_compute; reflexivity|]. split; [reflexivity|].
  split; [vm_compute; reflexivity | reflexivity].
Qed.

End FlooredFixed.

(** ** [addCommas]: the digits after the point *)

Section FractionDigits.

Local Open Scope nat_scope.

Lemma addCommas_returns (v : number) (c : Currency) (d : nat) :
  (d <= max_fraction_digits)%nat -> exists s, addCommas v c d = Return s.
Proof.
  intros Hd. unfold addCommas, toLocaleString.
  in_range Hd.
  destruct v; eexists; reflexivity.
Qed.

(** What follows the point in the output of [toLocaleString] is the fraction
    rounded to the larger of the minimum and 3 digits, with the zeros at its
    end dropped down to the minimum. *)
Lemma toLocaleString_fraction_part (q : Q) (l : locale) (d : nat) :
  d <= max_fraction_digits ->
  exists s,
    toLocaleString (Finite q) l d = Return s
    /\ fraction_part s
       = strip_trailing_zeros d
           (digits_fixed (Nat.max d 3)
              (round_half_up (Qabs q) (Nat.max d 3)
               mod 10 ^ Z.of_nat (Nat.max d 3))).
Proof.
  intros Hd. unfold toLocaleString.
  in_range Hd.
  eexists. split; [reflexivity|].
  unfold fraction_part. rewrite list_ascii_of_string_of_list_ascii.
  set (frac := strip_trailing_zeros d _).
  rewrite split_at_app by (apply Forall_sign_prefix; reflexivity).
  rewrite split_at_app.
  - destruct frac as [| c frac']; reflexivity.
  - apply Forall_group_digits; [reflexivity|].
    eapply Forall_impl; [|apply Forall_digits]. apply digit_not_point.
Qed.

(** C3, as the code has it. For a finite value and [decimalPlaces] within
    the range the host accepts, the string [addCommas] returns has at least
    [decimalPlaces] and at most [max decimalPlaces 3] digits after the
    decimal point, and exactly [decimalPlaces] of them, the value's own
    padded with zeros, when the value has no more than [decimalPlaces]
    fractional digits (it is [m / 10^decimalPlaces] for an integer [m]). *)
Theorem addCommas_fraction_digits (q : Q) (c : Currency) (d : nat) :
  d <= max_fraction_digits ->
  exists s,
    addCommas (Finite q) c d = Return s
    /\ Forall (fun ch => is_digit ch = true) (fraction_part s)
    /\ d <= List.length (fraction_part s) <= Nat.max d 3
    /\ (forall m : Z,
          (q == inject_Z m / inject_Z (10 ^ Z.of_nat d))%Q ->
          fraction_part s = digits_fixed d (Z.abs m mod 10 ^ Z.of_nat d)
          /\ List.length (fraction_part s) = d).
Proof.
  intros Hd. unfold addCommas.
  destruct (toLocaleString_fraction_part q
              (if (c =? "INR")%string then en_IN else en_US) d Hd)
    as (s & Hs & Hf).
  exists s. split; [exact Hs|]. rewrite Hf. clear Hs Hf s.
  set (mx := Nat.max d 3).
  set (n := round_half_up (Qabs q) mx).
  split; [|split].
  - apply Forall_strip_trailing_zeros, Forall_digits_fixed.
  - pose proof (length_strip_trailing_zeros d
                  (digits_fixed mx (n mod 10 ^ Z.of_nat mx))) as H.
    rewrite length_digits_fixed in H. unfold mx in *. lia.
  - intros m Hm.
    assert (Hn : n = (Z.abs m * 10 ^ Z.of_nat (mx - d))%Z).
    { apply round_half_up_exact.
      rewrite Hm. unfold Qdiv. rewrite Qabs_Qmult, Qabs_Qinv.
      rewrite (Qabs_pos (inject_Z (10 ^ Z.of_nat d)))
        by (apply Qlt_le_weak, inject_pow10_pos).
      replace (Z.of_nat mx) with (Z.of_nat d + Z.of_nat (mx - d))%Z
        by (unfold mx; lia).
      rewrite Z.pow_add_r by lia. rewrite !inject_Z_mult.
      assert (Habs : (Qabs (inject_Z m) == inject_Z (Z.abs m))%Q)
        by reflexivity.
      rewrite Habs. pose proof (inject_pow10_pos d). field. lra. }
    assert (Heq : strip_trailing_zeros d
                    (digits_fixed mx (n mod 10 ^ Z.of_nat mx))
                  = digits_fixed d (Z.abs m mod 10 ^ Z.of_nat d)).
    { rewrite Hn.
      replace (10 ^ Z.of_nat mx)%Z
        with (10 ^ Z.of_nat d * 10 ^ Z.of_nat (mx - d))%Z
        by (rewrite <- Z.pow_add_r by lia; f_equal; unfold mx; lia).
      pose proof (pow10_pos d). pose proof (pow10_pos (mx - d)).
      rewrite Z.mul_mod_distr_r by lia.
      replace mx with ((mx - d) + d) at 1 by (unfold mx; lia).
      rewrite digits_fixed_shift.
      rewrite <- (length_digits_fixed d (Z.abs m mod 10 ^ Z.of_nat d)) at 1.
      apply strip_trailing_zeros_padding. }
    rewrite Heq. split; [reflexivity | apply length_digits_fixed].
Qed.

(** C3, at 1234.5 with two places: "1,234.50". *)
Lemma addCommas_fraction_digits_witness :
  2 <= max_fraction_digits
  /\ (12345 # 10 == inject_Z 123450 / inject_Z (10 ^ Z.of_nat 2))%Q
  /\ exists s,
       addCommas (Finite (12345 # 10)) "INR" 2 = Return s
       /\ List.length (fraction_part s) = 2.
Proof.
  assert (H : 2 <= max_fraction_digits) by (vm_compute; lia).
  assert (Hm : (12345 # 10 == inject_Z 123450 / inject_Z (10 ^ Z.of_nat 2))%Q)
    by reflexivity.
  split; [exact H|]. split; [exact Hm|].
  destruct (addCommas_fraction_digits (12345 # 10) "INR" 2 H)
    as (s & Hs & _ & _ & Hexact).
  exists s. split; [exact Hs | exact (proj2 (Hexact 123450%Z Hm))].
Defined.

(** C3, as the specification words it, fails: with no decimal places asked
    for, 1.5 is printed "1.5", one digit after the point. *)
Lemma addCommas_fraction_not_exact :
  ~ (forall (v : number) (c : Currency) (d : nat) (s : string),
        addCommas v c d = Return s -> List.length (fraction_part s) = d).
Proof.
  intros H.
  specialize (H (Finite (3 # 2)) "USD"%string 0 "1.5"%string eq_refl).
  discriminate H.
Qed.

End FractionDigits.

(** ** [getHumanizedAmount] and [formatAmountWithSuffix] *)

Section Formatting.

Variable getCurrencyAbbreviations : Currency -> list CurrencyAbbreviation.

Local Abbreviation abbreviation :=
  (Amount.abbreviation getCurrencyAbbreviations).
Local Abbreviation getHumanizedAmount :=
  (Amount.getHumanizedAmount getCurrencyAbbreviations).
Local Abbreviation formatAmountWithSuffix :=
  (Amount.formatAmountWithSuffix getCurrencyAbbreviations).

(** The rule [find] returns is the first of the table that the value
    reaches: every rule before it has a threshold the value is below (or not
    comparable with). *)
Lemma abbreviation_first (v : number) (c : Currency) (a : CurrencyAbbreviation) :
  abbreviation v c = Some a ->
  exists before after,
    getCurrencyAbbreviations c = (before ++ a :: after)%list
    /\ Forall (fun r => ~ Js.le (value r) v) before
    /\ Js.le (value a) v.
Proof.
  unfold Amount.abbreviation.
  induction (getCurrencyAbbreviations c) as [| r rs IH]; simpl; [discriminate|].
  destruct (ge v (value r)) eqn:E.
  - intros [= <-]. exists [], rs. repeat split; [constructor|].
    now apply ge_le.
  - intros H. destruct (IH H) as (before & after & -> & Hb & Ha).
    exists (r :: before), after. repeat split; [|exact Ha].
    constructor; [|exact Hb]. rewrite <- ge_le. congruence.
Qed.

Lemma abbreviation_none (v : number) (c : Currency) :
  abbreviation v c = None <->
  Forall (fun r => ~ Js.le (value r) v) (getCurrencyAbbreviations c).
Proof.
  unfold Amount.abbreviation.
  induction (getCurrencyAbbreviations c) as [| r rs IH]; simpl.
  - split; [constructor | reflexivity].
  - destruct (ge v (value r)) eqn:E.
    + split; [discriminate|]. intros H. inversion H as [| ? ? Hr _]; subst.
      exfalso. apply Hr. now apply ge_le.
    + rewrite IH. split.
      * intros H. constructor; [|exact H]. rewrite <- ge_le. congruence.
      * intros H. now inversion H.
Qed.

Lemma getHumanizedAmount_returns (v : number) (c : Currency) :
  exists s, getHumanizedAmount v c = Return s.
Proof.
  unfold Amount.getHumanizedAmount.
  destruct (abbreviation v c) as [a |];
    [|eexists; reflexivity].
  destruct (getFlooredFixed_returns (div v (value a)) 2) as [r ->];
    [vm_compute; lia|].
  simpl. destruct (addCommas_returns r c 0) as [s ->]; [vm_compute; lia|].
  eexists. reflexivity.
Qed.

(** When no rule is selected the value is printed as it is. *)
Lemma getHumanizedAmount_no_rule (v : number) (c : Currency) :
  abbreviation v c = None ->
  getHumanizedAmount v c = Return (toString v).
Proof. intros H. unfold Amount.getHumanizedAmount. now rewrite H. Qed.

(** When a rule is selected, the quotient goes through [getFlooredFixed] with
    two places and [addCommas] without a minimum, and the symbol follows. *)
Lemma getHumanizedAmount_rule (v : number) (c : Currency)
    (a : CurrencyAbbreviation) :
  abbreviation v c = Some a ->
  exists r grouped,
    getFlooredFixed (div v (value a)) 2 = Return r
    /\ addCommas r c 0 = Return grouped
    /\ getHumanizedAmount v c
       = Return (grouped ++ symbol a).
Proof.
  intros H. unfold Amount.getHumanizedAmount. rewrite H.
  destruct (getFlooredFixed_returns (div v (value a)) 2) as [r Hr];
    [vm_compute; lia|].
  destruct (addCommas_returns r c 0) as [g Hg]; [vm_compute; lia|].
  exists r, g. rewrite Hr. simpl. rewrite Hg. repeat split; assumption.
Qed.

(** C8. Whenever [getHumanizedAmount] abbreviates with a rule, the threshold
    of that rule is less than or equal to the input value: the rule bound to
    [abbreviation], whose symbol ends the result, is never one whose
    threshold exceeds the value. *)
Theorem abbreviation_threshold_le (v : number) (c : Currency)
    (a : CurrencyAbbreviation) :
  abbreviation v c = Some a ->
  Js.le (value a) v
  /\ exists grouped, getHumanizedAmount v c = Return (grouped ++ symbol a).
Proof.
  intros H. split.
  - destruct (abbreviation_first v c a H) as (_ & _ & _ & _ & Hle).
    exact Hle.
  - destruct (getHumanizedAmount_rule v c a H) as (r & g & _ & _ & Hres).
    now exists g.
Qed.

(** C10. For a negative finite value and a table whose thresholds are all
    positive, [getHumanizedAmount] returns [value.toString()]: no rule is
    selected, so no symbol is appended, and the string has no grouping
    separator. *)
Theorem getHumanizedAmount_negative (q : Q) (c : Currency) :
  (q < 0)%Q ->
  Forall (fun r => Js.lt (Finite 0) (value r) = true)
         (getCurrencyAbbreviations c) ->
  abbreviation (Finite q) c = None
  /\ getHumanizedAmount (Finite q) c = Return (toString (Finite q))
  /\ ~ In ","%char (list_ascii_of_string (toString (Finite q))).
Proof.
  intros Hq Hpos.
  assert (Hnone : abbreviation (Finite q) c = None).
  { apply abbreviation_none. eapply Forall_impl; [|exact Hpos].
    intros r. cbv beta. destruct (value r) as [| t | p]; simpl; intros Hr Hle.
    - discriminate.
    - destruct t; [discriminate | congruence].
    - apply Qlt_bool_iff in Hr. lra. }
  split; [exact Hnone|]. split; [|apply toString_no_comma].
  now apply getHumanizedAmount_no_rule.
Qed.

Lemma floored_then_commas_returns (v : number) (c : Currency) (d e : nat) :
  (d <= max_fraction_digits)%nat -> (e <= max_fraction_digits)%nat ->
  exists s, (r <- getFlooredFixed v d ;; addCommas r c e) = Return s.
Proof.
  intros Hd He. destruct (getFlooredFixed_returns v d Hd) as [r ->].
  simpl. now apply addCommas_returns.
Qed.

Lemma formatAmountWithSuffix_returns (suffix : option string) (v : number)
    (c : Currency) :
  exists s,
    formatAmountWithSuffix suffix v c = Return s.
Proof.
  assert (H0 : (0 <= max_fraction_digits)%nat) by (vm_compute; lia).
  assert (H2 : (2 <= max_fraction_digits)%nat) by (vm_compute; lia).
  unfold Amount.formatAmountWithSuffix.
  destruct suffix as [policy |];
    [|now apply floored_then_commas_returns].
  destruct (policy =? "decimals");
    [now apply floored_then_commas_returns|].
  destruct (policy =? "humanize"); [apply getHumanizedAmount_returns|].
  destruct (policy =? "none"); now apply floored_then_commas_returns.
Qed.

(** C5. A suffix policy that is none of "decimals", "humanize" and "none"
    is formatted exactly as the policy "none" is, and a string is returned:
    nothing is thrown. *)
Theorem formatAmountWithSuffix_unrecognized (policy : string) (v : number)
    (c : Currency) :
  policy <> "decimals" -> policy <> "humanize" -> policy <> "none" ->
  formatAmountWithSuffix (Some policy) v c
  = formatAmountWithSuffix (Some "none") v c
  /\ exists s, formatAmountWithSuffix (Some policy) v c = Return s.
Proof.
  intros Hd Hh Hn. split; [|apply formatAmountWithSuffix_returns].
  unfold Amount.formatAmountWithSuffix.
  apply String.eqb_neq in Hd, Hh, Hn. rewrite Hd, Hh, Hn. reflexivity.
Qed.

(** C7. [formatAmountWithSuffix] of 1234567, "USD" and the policy "none"
    is "1,234,567". *)
Theorem formatAmountWithSuffix_none_USD :
  formatAmountWithSuffix (Some "none") (Finite 1234567) "USD"
  = Return "1,234,567".
Proof. vm_compute. reflexivity. Qed.

(** C2. On 1234.567, "INR" and the policy "decimals" the code returns
    "1,234.57", not the "1,234.56" of the specification: the fraction is
    rounded up. *)
Theorem formatAmountWithSuffix_decimals_INR :
  formatAmountWithSuffix (Some "decimals") (Finite (1234567 # 1000)) "INR"
  = Return "1,234.57".
Proof. vm_compute. reflexivity. Qed.

(** ** The entry point [_Amount] *)

Variable currencyPrefixMapping : Currency -> string -> string.

Local Abbreviation _Amount :=
  (Amount._Amount getCurrencyAbbreviations currencyPrefixMapping).

(** C9. With the development flag on, [_Amount] throws the Blade diagnostic
    for every [value] whose type is not "number" and for the intent
    "neutral", and nothing is formatted; with the flag off neither check is
    made and no Blade diagnostic is thrown. *)
Theorem Amount_development_checks (props : AmountProps) :
  (typeof (prop_value props) <> "number" ->
   _Amount true props
   = Throw (BladeError "Amount"
              "`value` prop must be of type `number` for Amount."))
  /\ (prop_intent props = Some "neutral" ->
      exists message, _Amount true props = Throw (BladeError "Amount" message))
  /\ (forall moduleName message,
        _Amount false props <> Throw (BladeError moduleName message)).
Proof.
  destruct props as [v suffix intent prefix currency].
  unfold Amount._Amount. cbn [prop_value prop_suffix prop_intent prop_prefix
                               prop_currency].
  split; [|split].
  - intros Hty. apply String.eqb_neq in Hty. rewrite Hty. reflexivity.
  - intros ->. destruct (typeof v =? "number"); eexists; reflexivity.
  - intros m msg. cbn [bind].
    destruct v as [| | b | n | s |]; try discriminate.
    match goal with
    | |- context [formatAmountWithSuffix ?s ?n ?c] =>
        destruct (formatAmountWithSuffix_returns s n c) as [r ->]
    end.
    discriminate.
Qed.

(** With the flag on, a number and an intent other than "neutral" pass the
    checks and the value is formatted. *)
Lemma Amount_development_accepts (props : AmountProps) (n : number) :
  prop_value props = JsNumber n ->
  prop_intent props <> Some "neutral" ->
  exists currencyPrefix renderedValue,
    _Amount true props = Return (Rendered currencyPrefix renderedValue).
Proof.
  destruct props as [v suffix intent prefix currency].
  unfold Amount._Amount. cbn [prop_value prop_suffix prop_intent prop_prefix
                               prop_currency].
  intros -> Hi. cbn [typeof negb bind String.eqb Ascii.eqb Bool.eqb].
  assert (Hcheck : match intent with
                   | Some i =>
                       if i =? "neutral"
                       then throwBladeError
                              "`neutral` intent is not supported." "Amount"
                       else Return tt
                   | None => Return tt
                   end = Return tt).
  { destruct intent as [i |]; [|reflexivity].
    destruct (String.eqb_spec i "neutral") as [-> | _];
      [now contradiction Hi | reflexivity]. }
  change ("number" =? "number") with true. cbn [negb bind].
  rewrite Hcheck. cbn [bind].
  match goal with
  | |- context [formatAmountWithSuffix ?s ?n ?c] =>
      destruct (formatAmountWithSuffix_returns s n c) as [r ->]
  end.
  eexists _, _. reflexivity.
Qed.

End Formatting.

(** ** At concrete inputs *)

(** C4. With a thousand rule, 1999 is abbreviated to "2K": the quotient
    1.999 is not floored to 1.99.  The rule that is selected and the plain
    form below the smallest threshold are as specified. *)
Theorem getHumanizedAmount_rounds_up :
  abbreviation sampleAbbreviations (Finite 1999) "INR"
  = Some (mkAbbreviation (Finite 1000) "K")
  /\ getHumanizedAmount sampleAbbreviations (Finite 1999) "INR" = Return "2K"
  /\ getHumanizedAmount sampleAbbreviations (Finite 1000) "INR" = Return "1K"
  /\ getHumanizedAmount sampleAbbreviations (Finite 500) "INR" = Return "500".
Proof.
  split; [reflexivity|]. split; [vm_compute; reflexivity|].
  split; vm_compute; reflexivity.
Qed.

(** C8, at 2500 in the sample table: the thousand rule is selected. *)
Lemma abbreviation_threshold_le_witness :
  abbreviation sampleAbbreviations (Finite 2500) "INR"
  = Some (mkAbbreviation (Finite 1000) "K")
  /\ Js.le (Finite 1000) (Finite 2500)
  /\ exists grouped,
       getHumanizedAmount sampleAbbreviations (Finite 2500) "INR"
       = Return (grouped ++ "K").
Proof.
  split; [reflexivity|].
  exact (abbreviation_threshold_le sampleAbbreviations (Finite 2500) "INR"
           (mkAbbreviation (Finite 1000) "K") eq_refl).
Defined.

(** C10, at -1500 in the sample table. *)
Lemma getHumanizedAmount_negative_witness :
  (-1500 < 0)%Q
  /\ Forall (fun r => Js.lt (Finite 0) (value r) = true)
            (sampleAbbreviations "INR")
  /\ getHumanizedAmount sampleAbbreviations (Finite (-1500)) "INR"
     = Return "-1500".
Proof.
  assert (Hq : (-1500 < 0)%Q) by reflexivity.
  assert (Hpos : Forall (fun r => Js.lt (Finite 0) (value r) = true)
                        (sampleAbbreviations "INR"))
    by (repeat constructor).
  split; [exact Hq|]. split; [exact Hpos|].
  exact (proj1 (proj2 (getHumanizedAmount_negative sampleAbbreviations
                         (-1500) "INR" Hq Hpos))).
Defined.

(** C5, at a policy the switch does not know. *)
Lemma formatAmountWithSuffix_unrecognized_witness :
  "compact" <> "decimals" /\ "compact" <> "humanize" /\ "compact" <> "none"
  /\ formatAmountWithSuffix sampleAbbreviations (Some "compact")
       (Finite (12345675 # 10)) "INR"
     = formatAmountWithSuffix sampleAbbreviations (Some "none")
         (Finite (12345675 # 10)) "INR".
Proof.
  assert (Hd : "compact" <> "decimals") by discriminate.
  assert (Hh : "compact" <> "humanize") by discriminate.
  assert (Hn : "compact" <> "none") by discriminate.
  split; [exact Hd|]. split; [exact Hh|]. split; [exact Hn|].
  exact (proj1 (formatAmountWithSuffix_unrecognized sampleAbbreviations
                  "compact" (Finite (12345675 # 10)) "INR" Hd Hh Hn)).
Defined.

(** C9, at a string passed for [value] and at the intent "neutral". *)
Lemma Amount_development_checks_witness :
  let run := Amount._Amount sampleAbbreviations samplePrefixMapping in
  let bad := mkProps (JsString "12") None None None None in
  let neutral :=
    mkProps (JsNumber (Finite 12)) None (Some "neutral") None None in
  typeof (prop_value bad) <> "number"
  /\ run true bad
     = Throw (BladeError "Amount"
                "`value` prop must be of type `number` for Amount.")
  /\ prop_intent neutral = Some "neutral"
  /\ (exists message, run true neutral = Throw (BladeError "Amount" message))
  /\ (forall moduleName message,
        run false bad <> Throw (BladeError moduleName message)).
Proof.
  intros run bad neutral.
  assert (H : typeof (prop_value bad) <> "number") by discriminate.
  pose proof (Amount_development_checks sampleAbbreviations
                samplePrefixMapping bad) as (Hvalue & _ & Hoff).
  pose proof (Amount_development_checks sampleAbbreviations
                samplePrefixMapping neutral) as (_ & Hintent & _).
  split; [exact H|]. split; [exact (Hvalue H)|]. split; [reflexivity|].
  split; [exact (Hintent eq_refl) | exact Hoff].
Defined.

(** * Further properties *)

(** ** [getFlooredFixed]: how far from the value, order, digits *)

Section FlooredFixedValue.

Local Open Scope Q_scope.

(** The two cases of [getFlooredFixed] on a finite value, with [w] the value
    cut to a whole number of units of [100^-d]. *)
Lemma getFlooredFixed_value (q : Q) (d : nat) :
  (d <= max_fraction_digits)%nat ->
  exists w r,
    w == inject_Z (Qfloor (q * inject_Z (100 ^ Z.of_nat d)))
         / inject_Z (100 ^ Z.of_nat d)
    /\ getFlooredFixed (Finite q) d = Return (Finite r)
    /\ ((inject_Z (10 ^ 21) <= Qabs w /\ r == w)
        \/ (Qabs w < inject_Z (10 ^ 21)
            /\ r == (if Qlt_bool w 0 then - (1) else 1)
                    * (inject_Z (round_half_up (Qabs w) d)
                       / inject_Z (10 ^ Z.of_nat d)))).
Proof.
  intros Hd. destruct (getFlooredFixed_finite q d Hd) as (w & Hw & Hres).
  exists w. destruct (Qle_bool (inject_Z (10 ^ 21)) (Qabs w)) eqn:E.
  - exists (Qred w). split; [exact Hw|]. split; [exact Hres|]. left.
    split; [now apply Qle_bool_iff | apply Qred_correct].
  - eexists. split; [exact Hw|]. split; [exact Hres|]. right.
    split; [|apply Qred_correct].
    apply Qnot_le_lt. intros H. apply Qle_bool_iff in H. congruence.
Qed.

(** The cut value lies at most one unit of [100^-d] below the value. *)
Lemma cut_bounds (q : Q) (d : nat) (w : Q) :
  w == inject_Z (Qfloor (q * inject_Z (100 ^ Z.of_nat d)))
       / inject_Z (100 ^ Z.of_nat d) ->
  w <= q /\ q < w + 1 / inject_Z (100 ^ Z.of_nat d).
Proof.
  intros Hw. pose proof (pow100_pos d) as HF.
  pose proof (Qfloor_le (q * inject_Z (100 ^ Z.of_nat d))) as Hlo.
  pose proof (Qlt_floor (q * inject_Z (100 ^ Z.of_nat d))) as Hhi.
  rewrite inject_Z_plus in Hhi. change (inject_Z 1) with 1 in Hhi.
  set (F := inject_Z (100 ^ Z.of_nat d)) in *.
  set (fl := inject_Z (Qfloor (q * F))) in *.
  assert (HwF : w * F == fl) by (rewrite Hw; field; lra).
  split.
  - apply (Qmult_le_r _ _ F HF). rewrite HwF. exact Hlo.
  - apply (Qmult_lt_r _ _ F HF).
    assert (E : (w + 1 / F) * F == fl + 1) by (rewrite <- HwF; field; lra).
    rewrite E. exact Hhi.
Qed.


Lemma signed_abs (w : Q) :
  (if Qlt_bool w 0 then - (1) else 1) * Qabs w == w.
Proof.
  destruct (Qlt_le_dec w 0) as [Hneg | Hpos].
  - rewrite (Qlt_bool_true _ _ Hneg), Qabs_neg by lra. ring.
  - rewrite (Qlt_bool_false _ _ Hpos), Qabs_pos by exact Hpos. ring.
Qed.




(** With no decimal places [getFlooredFixed] is the floor: the result is
    the greatest integer that does not exceed the value. *)
Theorem getFlooredFixed_floor (q : Q) :
  exists n : Z,
    getFlooredFixed (Finite q) 0 = Return (fin (inject_Z n))
    /\ inject_Z n <= q /\ q < inject_Z n + 1.
Proof.
  exists (Qfloor q). split; [apply getFlooredFixed_0|].
  split; [apply Qfloor_le|].
  pose proof (Qlt_floor q) as H. rewrite inject_Z_plus in H. exact H.
Qed.






(** Below [10^21] in magnitude the result has no more than [decimalPlaces]
    fractional digits: it is a whole number of units of
    [10^-decimalPlaces]. *)
Lemma getFlooredFixed_units (q : Q) (d : nat) :
  (d <= max_fraction_digits)%nat ->
  Qabs q < inject_Z (10 ^ 21) ->
  exists r n,
    getFlooredFixed (Finite q) d = Return (Finite r)
    /\ r == inject_Z n / inject_Z (10 ^ Z.of_nat d).
Proof.
  intros Hd Hq.
  destruct (getFlooredFixed_value q d Hd) as (w & r & Hw & Hres & Hr).
  exists r. pose proof (inject_pow10_pos d) as HP.
  pose proof (pow100_pos d) as HF.
  destruct Hr as [[Hbig Hr] | [_ Hr]].
  - (* only at the value -10^21 *)
    exists (- 10 ^ 21 * 10 ^ Z.of_nat d)%Z. split; [exact Hres|].
    destruct (cut_bounds q d w Hw) as [Hlo _].
    apply Qabs_Qlt_condition in Hq.
    assert (Hge : - inject_Z (10 ^ 21) <= w).
    { rewrite Hw. apply Qle_shift_div_l; [exact HF|].
      change (- inject_Z (10 ^ 21)) with (inject_Z (- 10 ^ 21)).
      rewrite <- inject_Z_mult, <- Zle_Qle.
      rewrite <- (Qfloor_Z (- 10 ^ 21 * 100 ^ Z.of_nat d)).
      apply Qfloor_resp_le. rewrite inject_Z_mult.
      change (inject_Z (- 10 ^ 21)) with (- inject_Z (10 ^ 21)).
      apply Qmult_le_compat_r; lra. }
    assert (Hneg : w < 0).
    { destruct (Qlt_le_dec w 0) as [N | P]; [exact N|].
      rewrite Qabs_pos in Hbig by exact P. exfalso. lra. }
    rewrite Qabs_neg in Hbig by lra.
    rewrite Hr, inject_Z_mult.
    change (inject_Z (- 10 ^ 21)) with (- inject_Z (10 ^ 21)).
    assert (E : w == - inject_Z (10 ^ 21)) by lra.
    rewrite E. field. lra.
  - exists ((if Qlt_bool w 0 then - 1 else 1) * round_half_up (Qabs w) d)%Z.
    split; [exact Hres|]. rewrite Hr, inject_Z_mult.
    destruct (Qlt_bool w 0);
      [change (inject_Z (- 1)) with (- (1)) | change (inject_Z 1) with 1];
      field; lra.
Qed.

End FlooredFixedValue.

(** ** [addCommas] on a value with no more digits than asked for *)

Section ExactPrint.

Local Open Scope list_scope.

Lemma filter_group_rev (keep : ascii -> bool) (size cnt : nat)
    (r : list ascii) :
  keep ","%char = false ->
  Forall (fun c => keep c = true) r ->
  filter keep (group_rev size cnt r) = r.
Proof.
  intros Hc Hr. revert cnt. induction Hr as [| c r Hk _ IH]; intros cnt.
  - reflexivity.
  - destruct cnt; simpl; rewrite ?Hc, Hk, IH; reflexivity.
Qed.

(** Taking the separators out of grouped digits gives the digits back. *)
Lemma filter_group_digits (l : locale) (ds : list ascii) :
  Forall (fun c => is_digit c = true) ds ->
  filter (fun c => negb (Ascii.eqb c ",")) (group_digits l ds) = ds.
Proof.
  intros Hd. unfold group_digits.
  rewrite <- (rev_involutive (filter _ (rev _))).
  rewrite <- filter_rev, rev_involutive, filter_group_rev.
  - apply rev_involutive.
  - reflexivity.
  - apply Forall_rev. eapply Forall_impl; [|exact Hd].
    intros c Hc. destruct (Ascii.eqb_spec c ","%char) as [-> | _];
      [discriminate Hc | reflexivity].
Qed.

(** The shape of what [toLocaleString] prints for a value that is a whole
    number [m] of units of [10^-d], [d] the minimum asked for: the sign, the
    grouped digits of the integer part, and the [d] digits of the
    fraction. *)
Lemma toLocaleString_exact (q : Q) (l : locale) (d : nat) (m : Z) :
  (d <= max_fraction_digits)%nat ->
  (q == inject_Z m / inject_Z (10 ^ Z.of_nat d))%Q ->
  toLocaleString (Finite q) l d
  = Return (string_of_list_ascii
              (sign_prefix (Qlt_bool q 0)
               ++ group_digits l (digits (Z.abs m / 10 ^ Z.of_nat d))
               ++ match d with
                  | O => []
                  | S _ => "."%char
                           :: digits_fixed d (Z.abs m mod 10 ^ Z.of_nat d)
                  end)).
Proof.
  intros Hd Hm. unfold toLocaleString. in_range Hd.
  set (mx := Nat.max d 3).
  set (n := round_half_up (Qabs q) mx).
  pose proof (pow10_pos d) as Hpd. pose proof (pow10_pos (mx - d)) as Hpx.
  assert (Hn : n = (Z.abs m * 10 ^ Z.of_nat (mx - d))%Z).
  { apply round_half_up_exact.
    rewrite Hm. unfold Qdiv. rewrite Qabs_Qmult, Qabs_Qinv.
    rewrite (Qabs_pos (inject_Z (10 ^ Z.of_nat d)))
      by (apply Qlt_le_weak, inject_pow10_pos).
    replace (Z.of_nat mx) with (Z.of_nat d + Z.of_nat (mx - d))%Z
      by (unfold mx; lia).
    rewrite Z.pow_add_r by lia. rewrite !inject_Z_mult.
    assert (Habs : (Qabs (inject_Z m) == inject_Z (Z.abs m))%Q)
      by reflexivity.
    rewrite Habs. pose proof (inject_pow10_pos d). field. lra. }
  assert (Hp : (10 ^ Z.of_nat mx
                = 10 ^ Z.of_nat d * 10 ^ Z.of_nat (mx - d))%Z)
    by (rewrite <- Z.pow_add_r by lia; f_equal; unfold mx; lia).
  assert (Hfrac : strip_trailing_zeros d
                    (digits_fixed mx (n mod 10 ^ Z.of_nat mx))
                  = digits_fixed d (Z.abs m mod 10 ^ Z.of_nat d)).
  { rewrite Hn, Hp, Z.mul_mod_distr_r by lia.
    replace mx with ((mx - d) + d)%nat at 1 by (unfold mx; lia).
    rewrite digits_fixed_shift.
    rewrite <- (length_digits_fixed d (Z.abs m mod 10 ^ Z.of_nat d)) at 1.
    apply strip_trailing_zeros_padding. }
  assert (Hint : (n / 10 ^ Z.of_nat mx = Z.abs m / 10 ^ Z.of_nat d)%Z)
    by (rewrite Hn, Hp; apply Z.div_mul_cancel_r; lia).
  rewrite Hfrac, Hint. do 3 f_equal.
  destruct d as [| d']; [reflexivity|].
  destruct (digits_fixed (S d') _) as [| c r] eqn:E; [|reflexivity].
  apply (f_equal (@List.length ascii)) in E.
  rewrite length_digits_fixed in E. discriminate E.
Qed.

(** Reading a fixed-point print: sign, integer digits, and [f] fraction
    digits after a point when [f] is not zero. *)
Lemma Number_fixed_print (negative : bool) (n : Z) (f : nat) :
  0 <= n ->
  Number (string_of_list_ascii
            (sign_prefix negative
             ++ digits (n / 10 ^ Z.of_nat f)
             ++ match f with
                | O => []
                | S _ => "."%char :: digits_fixed f (n mod 10 ^ Z.of_nat f)
                end))
  = fin ((if negative then - (1) else 1)
         * (inject_Z n / inject_Z (10 ^ Z.of_nat f)))%Q.
Proof.
  intros Hn. set (p := 10 ^ Z.of_nat f).
  assert (Hp : 0 < p) by apply pow10_pos.
  assert (Hip : 0 <= n / p) by (apply Z.div_pos; lia).
  set (ip := digits (n / p)).
  set (fs := digits_fixed f (n mod p)).
  assert (Htail : match f with
                  | O => []
                  | S _ => "."%char :: fs
                  end
                  = match fs with [] => [] | _ :: _ => "."%char :: fs end
                    ++ []).
  { rewrite app_nil_r. unfold fs. destruct f as [| f']; [reflexivity|].
    destruct (digits_fixed (S f') (n mod p)) as [| c r] eqn:E;
      [|reflexivity].
    apply (f_equal (@List.length ascii)) in E.
    rewrite length_digits_fixed in E. discriminate E. }
  rewrite Htail.
  assert (Hparse : parse_digits 0 (ip ++ fs) = Some n).
  { unfold ip, fs. rewrite parse_digits_app, parse_digits_digits by exact Hip.
    rewrite parse_digits_fixed. f_equal. fold p.
    rewrite Z.mod_mod by lia. pose proof (Z.div_mod n p). lia. }
  pose proof (parse_decimal_printed ip fs None n 0 (digits_nonempty _)
                (Forall_digits _) (Forall_digits_fixed _ _) Hparse eq_refl)
    as Hdec.
  destruct ip as [| c rest] eqn:Eip; [now apply digits_nonempty in Eip|].
  assert (Hc : is_digit c = true).
  { pose proof (Forall_digits (n / p)) as H. fold ip in H. rewrite Eip in H.
    now inversion H. }
  erewrite Number_printed; [|reflexivity | exact Hc | exact Hdec].
  apply fin_eq. unfold fs. rewrite length_digits_fixed.
  destruct negative; rewrite Qpower10_neg; fold p; unfold Qdiv; ring.
Qed.

Lemma filter_keep_all (keep : ascii -> bool) (l : list ascii) :
  Forall (fun c => keep c = true) l -> filter keep l = l.
Proof.
  induction 1 as [| c l Hc _ IH]; simpl; [reflexivity|].
  now rewrite Hc, IH.
Qed.

Lemma digit_not_comma (c : ascii) :
  is_digit c = true -> negb (Ascii.eqb c ",") = true.
Proof.
  intros Hc. destruct (Ascii.eqb_spec c ","%char) as [-> | _];
    [discriminate Hc | reflexivity].
Qed.

(** What [addCommas] returns for a value that is a whole number [m] of
    units of [10^-d], [d] the places asked for: after the point come the [d]
    low digits of [m]; with the separators taken out the string reads as the
    value; and there is no point when [d] is zero. *)
Lemma addCommas_exact (q : Q) (c : Currency) (d : nat) (m : Z) :
  (d <= max_fraction_digits)%nat ->
  (q == inject_Z m / inject_Z (10 ^ Z.of_nat d))%Q ->
  exists s,
    addCommas (Finite q) c d = Return s
    /\ fraction_part s = digits_fixed d (Z.abs m mod 10 ^ Z.of_nat d)
    /\ Number (without_separators s) = fin q
    /\ (d = O -> ~ In "."%char (list_ascii_of_string s)).
Proof.
  intros Hd Hm. unfold addCommas.
  set (l := if (c =? "INR")%string then en_IN else en_US).
  rewrite (toLocaleString_exact q l d m Hd Hm).
  eexists. split; [reflexivity|].
  set (ip := digits (Z.abs m / 10 ^ Z.of_nat d)).
  set (fd := digits_fixed d (Z.abs m mod 10 ^ Z.of_nat d)).
  assert (Hsign : Forall (fun ch => is_point ch = false)
                         (sign_prefix (Qlt_bool q 0)))
    by (apply Forall_sign_prefix; reflexivity).
  assert (Hgroup : Forall (fun ch => is_point ch = false)
                          (group_digits l ip)).
  { apply Forall_group_digits; [reflexivity|].
    eapply Forall_impl; [|apply Forall_digits]. apply digit_not_point. }
  split; [|split].
  - unfold fraction_part. rewrite list_ascii_of_string_of_list_ascii.
    rewrite (split_at_app _ _ _ Hsign), (split_at_app _ _ _ Hgroup).
    destruct d; reflexivity.
  - unfold without_separators.
    rewrite list_ascii_of_string_of_list_ascii, !filter_app.
    rewrite (filter_group_digits l ip (Forall_digits _)).
    assert (Hs : filter (fun ch => negb (Ascii.eqb ch ","))
                   (sign_prefix (Qlt_bool q 0))
                 = sign_prefix (Qlt_bool q 0))
      by (destruct (Qlt_bool q 0); reflexivity).
    assert (Ht : filter (fun ch => negb (Ascii.eqb ch ","))
                   match d with
                   | O => []
                   | S _ => "."%char :: fd
                   end
                 = match d with
                   | O => []
                   | S _ => "."%char :: fd
                   end).
    { destruct d; [reflexivity|]. cbn [filter].
      change (negb (Ascii.eqb "." ",")) with true. cbv iota. f_equal.
      apply filter_keep_all.
      eapply Forall_impl; [|apply Forall_digits_fixed].
      apply digit_not_comma. }
    rewrite Hs, Ht. unfold ip, fd.
    rewrite (Number_fixed_print _ _ _ (Z.abs_nonneg m)). apply fin_eq.
    pose proof (inject_pow10_pos d) as HP.
    rewrite <- (signed_abs q) at 2. rewrite Hm at 3. unfold Qdiv.
    rewrite Qabs_Qmult, Qabs_Qinv, (Qabs_pos (inject_Z (10 ^ _)))
      by now apply Qlt_le_weak.
    reflexivity.
  - intros ->. rewrite list_ascii_of_string_of_list_ascii, app_nil_r.
    intros Hin. apply in_app_or in Hin.
    rewrite Forall_forall in Hsign, Hgroup.
    destruct Hin as [Hin | Hin];
      [apply Hsign in Hin | apply Hgroup in Hin]; discriminate Hin.
Qed.

(** Round trip through the separators: for a value with no more fractional
    digits than the places asked for, what [addCommas] returns reads, with
    its separators taken out, as the value itself. *)
Theorem addCommas_separators_round_trip (q : Q) (c : Currency) (d : nat)
    (m : Z) :
  (d <= max_fraction_digits)%nat ->
  (q == inject_Z m / inject_Z (10 ^ Z.of_nat d))%Q ->
  exists s,
    addCommas (Finite q) c d = Return s
    /\ Number (without_separators s) = fin q.
Proof.
  intros Hd Hm.
  destruct (addCommas_exact q c d m Hd Hm) as (s & Hs & _ & Hread & _).
  now exists s.
Qed.

(** At 1234567.5 with two places: "12,34,567.50" reads as 1234567.5. *)
Lemma addCommas_separators_round_trip_witness :
  (2 <= max_fraction_digits)%nat
  /\ (12345675 # 10 == inject_Z 123456750 / inject_Z (10 ^ Z.of_nat 2))%Q
  /\ exists s,
       addCommas (Finite (12345675 # 10)) "INR" 2 = Return s
       /\ Number (without_separators s) = fin (12345675 # 10).
Proof.
  assert (H : (2 <= max_fraction_digits)%nat) by (vm_compute; lia).
  assert (Hm : (12345675 # 10
                == inject_Z 123456750 / inject_Z (10 ^ Z.of_nat 2))%Q)
    by reflexivity.
  split; [exact H|]. split; [exact Hm|].
  exact (addCommas_separators_round_trip (12345675 # 10) "INR" 2 123456750
           H Hm).
Defined.

End ExactPrint.

(** ** What the three policies print *)

Section Policies.

Variable getCurrencyAbbreviations : Currency -> list CurrencyAbbreviation.

Local Abbreviation abbreviation :=
  (Amount.abbreviation getCurrencyAbbreviations).
Local Abbreviation getHumanizedAmount :=
  (Amount.getHumanizedAmount getCurrencyAbbreviations).
Local Abbreviation formatAmountWithSuffix :=
  (Amount.formatAmountWithSuffix getCurrencyAbbreviations).

(** Under the policy "decimals" a finite value below [10^21] in magnitude is
    printed with exactly two digits after the point, and the print, with its
    separators taken out, reads as the number [getFlooredFixed] returned:
    [addCommas] rounds nothing further. *)
Theorem formatAmountWithSuffix_decimals_two_digits (q : Q) (c : Currency) :
  (Qabs q < inject_Z (10 ^ 21))%Q ->
  exists r s,
    getFlooredFixed (Finite q) 2 = Return (Finite r)
    /\ formatAmountWithSuffix (Some "decimals") (Finite q) c = Return s
    /\ List.length (fraction_part s) = 2%nat
    /\ Forall (fun ch => is_digit ch = true) (fraction_part s)
    /\ Number (without_separators s) = fin r.
Proof.
  intros Hq.
  assert (H2 : (2 <= max_fraction_digits)%nat) by (vm_compute; lia).
  destruct (getFlooredFixed_units q 2 H2 Hq) as (r & n & Hr & Hn).
  destruct (addCommas_exact r c 2 n H2 Hn) as (s & Hs & Hf & Hread & _).
  exists r, s. split; [exact Hr|].
  unfold Amount.formatAmountWithSuffix. cbn [String.eqb Ascii.eqb Bool.eqb].
  rewrite Hr. cbn [bind]. split; [exact Hs|]. rewrite Hf.
  split; [apply length_digits_fixed|].
  split; [apply Forall_digits_fixed | exact Hread].
Qed.

(** Under the policy "none", under a policy the switch does not know and
    without a policy, a finite value is printed without a decimal point, and
    the print, with its separators taken out, reads as the floor of the
    value. *)
Theorem formatAmountWithSuffix_none_floor (suffix : option string) (q : Q)
    (c : Currency) :
  (forall p, suffix = Some p -> p <> "decimals" /\ p <> "humanize") ->
  exists s,
    formatAmountWithSuffix suffix (Finite q) c = Return s
    /\ ~ In "."%char (list_ascii_of_string s)
    /\ Number (without_separators s) = fin (inject_Z (Qfloor q)).
Proof.
  intros Hp.
  assert (H0 : (0 <= max_fraction_digits)%nat) by (vm_compute; lia).
  assert (Hm : (Qred (inject_Z (Qfloor q))
                == inject_Z (Qfloor q) / inject_Z (10 ^ Z.of_nat 0))%Q).
  { rewrite Qred_correct. change (inject_Z (10 ^ Z.of_nat 0)) with 1%Q.
    field. }
  destruct (addCommas_exact _ c 0 _ H0 Hm) as (s & Hs & _ & Hread & Hpoint).
  exists s.
  assert (Hrun : (floored <- getFlooredFixed (Finite q) 0 ;;
                  addCommas floored c 0) = Return s)
    by (rewrite getFlooredFixed_0; exact Hs).
  split; [|split; [now apply Hpoint|]].
  - unfold Amount.formatAmountWithSuffix.
    destruct suffix as [p |]; [|exact Hrun].
    destruct (Hp p eq_refl) as [Hd Hh].
    apply String.eqb_neq in Hd, Hh. rewrite Hd, Hh.
    destruct (p =? "none"); exact Hrun.
  - rewrite Hread. apply fin_eq, Qred_correct.
Qed.

End Policies.

(** At 1234.567, "decimals": "1,234.57". *)
Lemma formatAmountWithSuffix_decimals_two_digits_witness :
  (Qabs (1234567 # 1000) < inject_Z (10 ^ 21))%Q
  /\ exists r s,
       getFlooredFixed (Finite (1234567 # 1000)) 2 = Return (Finite r)
       /\ formatAmountWithSuffix sampleAbbreviations (Some "decimals")
            (Finite (1234567 # 1000)) "INR" = Return s
       /\ List.length (fraction_part s) = 2%nat.
Proof.
  assert (H : (Qabs (1234567 # 1000) < inject_Z (10 ^ 21))%Q) by reflexivity.
  split; [exact H|].
  destruct (formatAmountWithSuffix_decimals_two_digits sampleAbbreviations
              (1234567 # 1000) "INR" H) as (r & s & Hr & Hs & Hlen & _).
  exists r, s. split; [exact Hr|]. split; [exact Hs | exact Hlen].
Defined.

(** At 1234567.5, no policy: "12,34,567". *)
Lemma formatAmountWithSuffix_none_floor_witness :
  (forall p, @None string = Some p -> p <> "decimals" /\ p <> "humanize")
  /\ exists s,
       formatAmountWithSuffix sampleAbbreviations None
         (Finite (12345675 # 10)) "INR" = Return s
       /\ Number (without_separators s) = fin (inject_Z 1234567).
Proof.
  assert (H : forall p, @None string = Some p ->
                        p <> "decimals" /\ p <> "humanize")
    by (intros p Hp; discriminate Hp).
  split; [exact H|].
  destruct (formatAmountWithSuffix_none_floor sampleAbbreviations None
              (12345675 # 10) "INR" H) as (s & Hs & _ & Hread).
  exists s. split; [exact Hs | exact Hread].
Defined.

(** ** [getHumanizedAmount]: the digits shown and the rule chosen *)

Section HumanizedDigits.

Local Open Scope list_scope.

(** Zeros added after at least [keep] digits are all dropped again. *)
Lemma strip_trailing_zeros_zeros (keep : nat) (ds : list ascii) (j : nat) :
  (keep <= List.length ds)%nat ->
  strip_trailing_zeros keep (ds ++ repeat "0"%char j)
  = strip_trailing_zeros keep ds.
Proof.
  intros Hk. unfold strip_trailing_zeros. f_equal.
  rewrite rev_app_distr, rev_repeat.
  induction j as [| j IH]; [reflexivity|].
  cbn [repeat app strip_zeros_rev].
  replace (keep <? _)%nat with true; [exact IH|].
  symmetry. apply Nat.ltb_lt. simpl.
  rewrite length_app, repeat_length, length_rev. lia.
Qed.

(** A value with [e] fractional digits, [e] between the minimum and the
    maximum [toLocaleString] keeps, is printed with at most [e] digits after
    the point: its own, less the zeros at the end that the minimum does not
    ask for. *)
Lemma addCommas_fraction_own (q : Q) (c : Currency) (d e : nat) (m : Z) :
  (d <= max_fraction_digits)%nat ->
  (d <= e <= Nat.max d 3)%nat ->
  (q == inject_Z m / inject_Z (10 ^ Z.of_nat e))%Q ->
  exists s,
    addCommas (Finite q) c d = Return s
    /\ fraction_part s
       = strip_trailing_zeros d
           (digits_fixed e (Z.abs m mod 10 ^ Z.of_nat e)).
Proof.
  intros Hd He Hm. unfold addCommas.
  destruct (toLocaleString_fraction_part q
              (if (c =? "INR")%string then en_IN else en_US) d Hd)
    as (s & Hs & Hf).
  exists s. split; [exact Hs|]. rewrite Hf.
  set (mx := Nat.max d 3) in *.
  pose proof (pow10_pos e) as Hpe. pose proof (pow10_pos (mx - e)) as Hpx.
  assert (Hn : round_half_up (Qabs q) mx
               = Z.abs m * 10 ^ Z.of_nat (mx - e)).
  { apply round_half_up_exact.
    rewrite Hm. unfold Qdiv. rewrite Qabs_Qmult, Qabs_Qinv.
    rewrite (Qabs_pos (inject_Z (10 ^ Z.of_nat e)))
      by (apply Qlt_le_weak, inject_pow10_pos).
    replace (Z.of_nat mx) with (Z.of_nat e + Z.of_nat (mx - e)) by lia.
    rewrite Z.pow_add_r by lia. rewrite !inject_Z_mult.
    assert (Habs : (Qabs (inject_Z m) == inject_Z (Z.abs m))%Q)
      by reflexivity.
    rewrite Habs. pose proof (inject_pow10_pos e). field. lra. }
  rewrite Hn.
  replace (10 ^ Z.of_nat mx) with (10 ^ Z.of_nat e * 10 ^ Z.of_nat (mx - e))
    by (rewrite <- Z.pow_add_r by lia; f_equal; lia).
  rewrite Z.mul_mod_distr_r by lia.
  replace mx with ((mx - e) + e)%nat at 1 by lia.
  rewrite digits_fixed_shift. apply strip_trailing_zeros_zeros.
  rewrite length_digits_fixed. lia.
Qed.

End HumanizedDigits.

Section Humanized.

Variable getCurrencyAbbreviations : Currency -> list CurrencyAbbreviation.

Local Abbreviation abbreviation :=
  (Amount.abbreviation getCurrencyAbbreviations).
Local Abbreviation getHumanizedAmount :=
  (Amount.getHumanizedAmount getCurrencyAbbreviations).

(** An abbreviated amount shows at most two digits after the point: for a
    finite value below [10^21] in magnitude and a selected rule whose
    threshold is at least 1, the text before the symbol has no more than two
    fraction digits. *)
Theorem getHumanizedAmount_two_digits (q t : Q) (c : Currency)
    (a : CurrencyAbbreviation) :
  abbreviation (Finite q) c = Some a ->
  value a = Finite t ->
  (1 <= t)%Q ->
  (Qabs q < inject_Z (10 ^ 21))%Q ->
  exists grouped,
    getHumanizedAmount (Finite q) c = Return (grouped ++ symbol a)
    /\ (List.length (fraction_part grouped) <= 2)%nat
    /\ Forall (fun ch => is_digit ch = true) (fraction_part grouped).
Proof.
  intros Ha Hv Ht Hq.
  assert (H0 : (0 <= max_fraction_digits)%nat) by (vm_compute; lia).
  assert (H2 : (2 <= max_fraction_digits)%nat) by (vm_compute; lia).
  unfold Amount.getHumanizedAmount. rewrite Ha, Hv. unfold div.
  rewrite Qeq_bool_false by lra. unfold fin.
  assert (Hquot : (Qabs (Qred (q / t)) < inject_Z (10 ^ 21))%Q).
  { rewrite Qred_correct. unfold Qdiv.
    rewrite Qabs_Qmult, Qabs_Qinv, (Qabs_pos t) by lra.
    pose proof (Qabs_nonneg q) as Hn.
    assert (Hit : (0 < / t /\ / t <= 1)%Q).
    { split; [apply Qinv_lt_0_compat; lra|].
      apply (Qmult_le_r _ _ t); [lra|].
      assert (E : (/ t * t == 1)%Q) by (field; lra). rewrite E. lra. }
    nra. }
  destruct (getFlooredFixed_units _ 2 H2 Hquot) as (r & n & Hr & Hn).
  destruct (addCommas_fraction_own r c 0 2 n H0 ltac:(simpl; lia) Hn)
    as (g & Hg & Hf).
  exists g. rewrite Hr. cbn [bind]. rewrite Hg. cbn [bind].
  split; [reflexivity|]. rewrite Hf. split.
  - pose proof (length_strip_trailing_zeros 0
                  (digits_fixed 2 (Z.abs n mod 10 ^ Z.of_nat 2))) as H.
    rewrite length_digits_fixed in H. lia.
  - apply Forall_strip_trailing_zeros, Forall_digits_fixed.
Qed.

Lemma le_refl_left (x v : number) : Js.le x v -> Js.le x x.
Proof.
  destruct x as [| s | p], v as [| t | q]; simpl; try tauto;
    try (destruct s; tauto); intros _; apply Qle_refl.
Qed.

(** In a table whose thresholds never increase from one rule to the next,
    the rule selected has the greatest threshold that the value reaches. *)
Theorem abbreviation_greatest (v : number) (c : Currency)
    (a : CurrencyAbbreviation) :
  StronglySorted (fun r1 r2 => Js.le (value r2) (value r1))
                 (getCurrencyAbbreviations c) ->
  abbreviation v c = Some a ->
  forall r, In r (getCurrencyAbbreviations c) ->
            Js.le (value r) v -> Js.le (value r) (value a).
Proof.
  intros Hsorted Ha r Hin Hr.
  destruct (abbreviation_first _ v c a Ha) as (before & after & Ht & Hb & Hle).
  rewrite Ht in Hin, Hsorted. clear Ht.
  induction before as [| b before IH].
  - simpl in *. apply StronglySorted_inv in Hsorted.
    destruct Hsorted as [_ Hafter]. destruct Hin as [<- | Hin].
    + now apply (le_refl_left _ v).
    + rewrite Forall_forall in Hafter. now apply Hafter.
  - simpl in Hin, Hsorted. apply StronglySorted_inv in Hsorted.
    inversion Hb as [| ? ? Hb1 Hb2]; subst.
    destruct Hin as [<- | Hin]; [contradiction|].
    now apply IH.
Qed.

(** A value equal to the threshold of the rule it selects is shown as "1"
    and the symbol of the rule. *)
Theorem getHumanizedAmount_at_threshold (q t : Q) (c : Currency)
    (a : CurrencyAbbreviation) :
  abbreviation (Finite q) c = Some a ->
  value a = Finite t ->
  (q == t)%Q ->
  ~ (t == 0)%Q ->
  getHumanizedAmount (Finite q) c = Return ("1" ++ symbol a).
Proof.
  intros Ha Hv Hqt Ht. unfold Amount.getHumanizedAmount.
  rewrite Ha, Hv. unfold div. rewrite (Qeq_bool_false _ _ Ht).
  assert (H1 : fin (q / t) = Finite 1).
  { unfold fin. f_equal. change 1%Q with (Qred 1).
    apply Qred_complete. rewrite Hqt. field. exact Ht. }
  rewrite H1.
  assert (Hf : getFlooredFixed (Finite 1) 2 = Return (Finite 1))
    by (vm_compute; reflexivity).
  rewrite Hf. cbn [bind]. unfold addCommas.
  destruct (c =? "INR"); reflexivity.
Qed.

End Humanized.

(** At 1234567 in the sample table: "1.23M". *)
Lemma getHumanizedAmount_two_digits_witness :
  abbreviation sampleAbbreviations (Finite 1234567) "INR"
  = Some (mkAbbreviation (Finite 1000000) "M")
  /\ (1 <= 1000000)%Q
  /\ (Qabs 1234567 < inject_Z (10 ^ 21))%Q
  /\ exists grouped,
       getHumanizedAmount sampleAbbreviations (Finite 1234567) "INR"
       = Return (grouped ++ "M")
       /\ (List.length (fraction_part grouped) <= 2)%nat.
Proof.
  assert (Ht : (1 <= 1000000)%Q) by (vm_compute; discriminate).
  assert (Hq : (Qabs 1234567 < inject_Z (10 ^ 21))%Q) by reflexivity.
  split; [reflexivity|]. split; [exact Ht|]. split; [exact Hq|].
  destruct (getHumanizedAmount_two_digits sampleAbbreviations 1234567 1000000
              "INR" (mkAbbreviation (Finite 1000000) "M")
              eq_refl eq_refl Ht Hq) as (g & Hg & Hlen & _).
  exists g. split; [exact Hg | exact Hlen].
Defined.

(** The sample table is in descending order; for 2500000 the rule chosen is
    the million, above the thousand that 2500000 reaches too. *)
Lemma abbreviation_greatest_witness :
  StronglySorted (fun r1 r2 => Js.le (value r2) (value r1))
                 (sampleAbbreviations "INR")
  /\ abbreviation sampleAbbreviations (Finite 2500000) "INR"
     = Some (mkAbbreviation (Finite 1000000) "M")
  /\ Js.le (Finite 1000) (Finite 1000000).
Proof.
  assert (Hs : StronglySorted (fun r1 r2 => Js.le (value r2) (value r1))
                              (sampleAbbreviations "INR")).
  { repeat constructor; simpl; discriminate. }
  split; [exact Hs|]. split; [reflexivity|].
  apply (abbreviation_greatest sampleAbbreviations (Finite 2500000) "INR"
           (mkAbbreviation (Finite 1000000) "M") Hs eq_refl
           (mkAbbreviation (Finite 1000) "K")).
  - simpl. tauto.
  - simpl. discriminate.
Defined.

(** At 1000000 in the sample table: "1M". *)
Lemma getHumanizedAmount_at_threshold_witness :
  abbreviation sampleAbbreviations (Finite 1000000) "INR"
  = Some (mkAbbreviation (Finite 1000000) "M")
  /\ (1000000 == 1000000)%Q
  /\ ~ (1000000 == 0)%Q
  /\ getHumanizedAmount sampleAbbreviations (Finite 1000000) "INR"
     = Return "1M".
Proof.
  assert (He : (1000000 == 1000000)%Q) by reflexivity.
  assert (Hn : ~ (1000000 == 0)%Q) by discriminate.
  split; [reflexivity|]. split; [exact He|]. split; [exact Hn|].
  exact (getHumanizedAmount_at_threshold sampleAbbreviations 1000000 1000000
           "INR" (mkAbbreviation (Finite 1000000) "M")
           eq_refl eq_refl He Hn).
Defined.

(** ** [addCommas]: where the separators start and where the locales part *)

Section SmallAmounts.

Local Open Scope list_scope.

Lemma num_digits_fuel_le (f k : nat) (m : Z) :
  (1 <= k)%nat -> m < 10 ^ Z.of_nat k -> (num_digits_fuel f m <= k)%nat.
Proof.
  revert k m. induction f as [| f IH]; intros k m Hk Hm; simpl; [exact Hk|].
  destruct (Z.ltb_spec m 10) as [Hlt | Hge]; [exact Hk|].
  destruct k as [| [| k]]; [lia | simpl in Hm; lia |].
  apply le_n_S, IH; [lia|].
  apply Z.div_lt_upper_bound; [lia|].
  rewrite (Nat2Z.inj_succ (S k)), Z.pow_succ_r in Hm by lia. exact Hm.
Qed.

Lemma length_digits_le (k : nat) (m : Z) :
  (1 <= k)%nat -> m < 10 ^ Z.of_nat k -> (List.length (digits m) <= k)%nat.
Proof.
  intros Hk Hm. unfold digits. rewrite length_digits_fixed.
  now apply num_digits_fuel_le.
Qed.

(** The integer part [toLocaleString] prints stays below a whole bound [B]
    when the magnitude is more than half a thousandth below it. *)
Lemma integer_part_bound (q : Q) (mx : nat) (B : Z) :
  (3 <= mx)%nat ->
  (Qabs q + (1 # 2000) < inject_Z B)%Q ->
  round_half_up (Qabs q) mx / 10 ^ Z.of_nat mx < B.
Proof.
  intros Hmx Hq. pose proof (pow10_pos mx) as Hp.
  apply Z.div_lt_upper_bound; [exact Hp|].
  rewrite Z.mul_comm, Zlt_Qlt, inject_Z_mult.
  assert (HP : (inject_Z 1000 <= inject_Z (10 ^ Z.of_nat mx))%Q).
  { rewrite <- Zle_Qle. change 1000 with (10 ^ 3).
    apply Z.pow_le_mono_r; lia. }
  change (inject_Z 1000) with 1000%Q in HP.
  unfold round_half_up.
  pose proof (Qfloor_le (Qabs q * inject_Z (10 ^ Z.of_nat mx) + (1 # 2)))
    as Hfl.
  pose proof (Qabs_nonneg q). nra.
Qed.

Lemma group_rev_short (size : nat) (r : list ascii) :
  (List.length r <= 3)%nat -> group_rev size 3 r = r.
Proof.
  destruct r as [| a [| b [| c [| e r]]]]; simpl; intros H;
    solve [reflexivity | lia].
Qed.

Lemma group_rev_locales (r : list ascii) :
  (List.length r <= 5)%nat -> group_rev 2 3 r = group_rev 3 3 r.
Proof.
  destruct r as [| a [| b [| c [| e [| f [| g r]]]]]]; simpl; intros H;
    solve [reflexivity | lia].
Qed.

(** Below one hundred thousand the currency makes no difference: the Indian
    and the Western grouping print the same string. *)
Theorem addCommas_currency_irrelevant (q : Q) (c1 c2 : Currency) (d : nat) :
  (Qabs q + (1 # 2000) < 100000)%Q ->
  addCommas (Finite q) c1 d = addCommas (Finite q) c2 d.
Proof.
  intros Hq. unfold addCommas, toLocaleString.
  destruct (max_fraction_digits <? d)%nat; [reflexivity|].
  set (mx := Nat.max d 3).
  pose proof (integer_part_bound q mx 100000 ltac:(unfold mx; lia) Hq) as Hb.
  assert (Hlen : (List.length
                    (digits (round_half_up (Qabs q) mx / 10 ^ Z.of_nat mx))
                  <= 5)%nat)
    by (apply length_digits_le; [lia | exact Hb]).
  assert (Hg : forall l,
            group_digits l
              (digits (round_half_up (Qabs q) mx / 10 ^ Z.of_nat mx))
            = group_digits en_US
                (digits (round_half_up (Qabs q) mx / 10 ^ Z.of_nat mx))).
  { intros l. unfold group_digits. f_equal.
    destruct l; [|reflexivity].
    apply group_rev_locales. now rewrite length_rev. }
  now rewrite (Hg (if (c1 =? "INR")%string then en_IN else en_US)),
              (Hg (if (c2 =? "INR")%string then en_IN else en_US)).
Qed.

(** At 99999.5: "99,999.5" for both. *)
Lemma addCommas_currency_irrelevant_witness :
  ((Qabs (999995 # 10) + (1 # 2000) < 100000)%Q)
  /\ addCommas (Finite (999995 # 10)) "INR" 0
     = addCommas (Finite (999995 # 10)) "USD" 0.
Proof.
  assert (H : (Qabs (999995 # 10) + (1 # 2000) < 100000)%Q) by reflexivity.
  split; [exact H|].
  exact (addCommas_currency_irrelevant (999995 # 10) "INR" "USD" 0 H).
Defined.

(** Below one thousand nothing is grouped: the string has no separator. *)
Theorem addCommas_no_separator (q : Q) (c : Currency) (d : nat) :
  (d <= max_fraction_digits)%nat ->
  (Qabs q + (1 # 2000) < 1000)%Q ->
  exists s,
    addCommas (Finite q) c d = Return s
    /\ ~ In ","%char (list_ascii_of_string s).
Proof.
  intros Hd Hq. unfold addCommas, toLocaleString. in_range Hd.
  eexists. split; [reflexivity|].
  set (mx := Nat.max d 3).
  pose proof (integer_part_bound q mx 1000 ltac:(unfold mx; lia) Hq) as Hb.
  set (ip := digits (round_half_up (Qabs q) mx / 10 ^ Z.of_nat mx)) in *.
  assert (Hlen : (List.length ip <= 3)%nat)
    by (apply length_digits_le; [lia | exact Hb]).
  assert (Hg : forall l, group_digits l ip = ip).
  { intros l. unfold group_digits.
    rewrite group_rev_short by now rewrite length_rev.
    apply rev_involutive. }
  rewrite Hg, list_ascii_of_string_of_list_ascii.
  set (frac := strip_trailing_zeros d _).
  assert (Hdig : forall ds, Forall (fun ch => is_digit ch = true) ds ->
                            Forall (fun ch => ch <> ","%char) ds).
  { intros ds H. eapply Forall_impl; [|exact H].
    intros ch Hc ->. discriminate Hc. }
  assert (Hall : Forall (fun ch => ch <> ","%char)
                   (sign_prefix (Qlt_bool q 0) ++ ip
                    ++ match frac with
                       | [] => []
                       | _ :: _ => "."%char :: frac
                       end)).
  { apply Forall_app. split; [apply Forall_sign_prefix; discriminate|].
    apply Forall_app. split; [apply Hdig, Forall_digits|].
    assert (Hf : Forall (fun ch => ch <> ","%char) frac)
      by (apply Hdig, Forall_strip_trailing_zeros, Forall_digits_fixed).
    destruct frac; [constructor|]. constructor; [discriminate | exact Hf]. }
  intros Hin. rewrite Forall_forall in Hall. now apply (Hall _ Hin).
Qed.

(** At 999.99 with two places: "999.99". *)
Lemma addCommas_no_separator_witness :
  (2 <= max_fraction_digits)%nat
  /\ (Qabs (99999 # 100) + (1 # 2000) < 1000)%Q
  /\ exists s,
       addCommas (Finite (99999 # 100)) "INR" 2 = Return s
       /\ ~ In ","%char (list_ascii_of_string s).
Proof.
  assert (H : (2 <= max_fraction_digits)%nat) by (vm_compute; lia).
  assert (Hq : (Qabs (99999 # 100) + (1 # 2000) < 1000)%Q) by reflexivity.
  split; [exact H|]. split; [exact Hq|].
  exact (addCommas_no_separator (99999 # 100) "INR" 2 H Hq).
Defined.

End SmallAmounts.

(** ** The texts of the component *)

Section Texts.

Local Open Scope list_scope.

Lemma string_of_list_ascii_app (a b : list ascii) :
  string_of_list_ascii (a ++ b)
  = (string_of_list_ascii a ++ string_of_list_ascii b)%string.
Proof. induction a as [| c a IH]; simpl; [reflexivity | now rewrite IH]. Qed.

Lemma split_chars_none (sep : ascii) (l : list ascii) :
  Forall (fun c => Ascii.eqb c sep = false) l -> split_chars sep l = [l].
Proof.
  induction 1 as [| c l Hc _ IH]; simpl; [reflexivity|].
  now rewrite Hc, IH.
Qed.

Lemma split_chars_app (sep : ascii) (l r : list ascii) :
  Forall (fun c => Ascii.eqb c sep = false) l ->
  split_chars sep (l ++ sep :: r) = l :: split_chars sep r.
Proof.
  induction 1 as [| c l Hc _ IH]; simpl.
  - now rewrite Ascii.eqb_refl.
  - now rewrite Hc, IH.
Qed.

(** With the suffix "decimals" and a subtle affix, a value with one point
    and digits after it is shown in two texts that, put together, are the
    value: the part up to the point, and the part after it. *)
Lemma AmountValue_split (pre fd : list ascii) (size avc ac : string) :
  Forall (fun c => Ascii.eqb c "." = false) pre ->
  Forall (fun c => Ascii.eqb c "." = false) fd ->
  fd <> [] ->
  AmountValue (string_of_list_ascii (pre ++ "."%char :: fd)) size avc true
    (Some "decimals"%string) ac
  = [ mkText (string_of_list_ascii pre ++ ".")
        (if includes size "bold" || startsWith size "title"
         then "bold" else "regular")%string avc;
      mkText (string_of_list_ascii fd) "regular" ac ].
Proof.
  intros Hpre Hfd Hne. unfold AmountValue, split.
  rewrite list_ascii_of_string_of_list_ascii.
  rewrite (split_chars_app _ _ _ Hpre), (split_chars_none _ _ Hfd).
  cbn [map nth nth_error String.eqb Ascii.eqb Bool.eqb andb].
  destruct fd as [| c fd']; [contradiction | reflexivity].
Qed.

(** When the value has no point, the decimals shown are "00" and the first
    text is the value followed by a point. *)
Theorem AmountValue_no_point (value size avc ac : string) :
  ~ In "."%char (list_ascii_of_string value) ->
  AmountValue value size avc true (Some "decimals"%string) ac
  = [ mkText (value ++ ".")
        (if includes size "bold" || startsWith size "title"
         then "bold" else "regular")%string avc;
      mkText "00" "regular" ac ].
Proof.
  intros Hno. unfold AmountValue, split.
  rewrite split_chars_none.
  - cbn [map nth nth_error String.eqb Ascii.eqb Bool.eqb andb].
    now rewrite string_of_list_ascii_of_string.
  - apply Forall_forall. intros c Hc.
    destruct (Ascii.eqb_spec c "."%char) as [-> | _];
      [contradiction | reflexivity].
Qed.

(** At "NaN", what the policy "decimals" prints for NaN: "NaN." and "00". *)
Lemma AmountValue_no_point_witness :
  ~ In "."%char (list_ascii_of_string "NaN")
  /\ AmountValue "NaN" "body-medium" "value" true (Some "decimals"%string)
       "affix"
     = [ mkText "NaN." "regular" "value"; mkText "00" "regular" "affix" ].
Proof.
  assert (H : ~ In "."%char (list_ascii_of_string "NaN")).
  { simpl. intros [E | [E | [E | []]]]; discriminate E. }
  split; [exact H|].
  exact (AmountValue_no_point "NaN" "body-medium" "value" "affix" H).
Defined.

(** The currency prefix is bold exactly when the affix is subtle: for every
    size of the component the test on the size never holds, so the size has
    no part in the weight. *)
Theorem currencyText_weight (currencyPrefix size : string)
    (isAffixSubtle : bool) (intent : option string) :
  In size sizes ->
  fontWeight (currencyText currencyPrefix isAffixSubtle size intent)
  = (if isAffixSubtle then "bold" else "regular")%string.
Proof.
  intros Hin. unfold currencyText, getCurrencyWeight. cbn [fontWeight].
  assert (Hs : startsWith size "bold" = false).
  { simpl in Hin.
    repeat (destruct Hin as [<- | Hin]; [reflexivity|]). contradiction. }
  rewrite Hs. now destruct isAffixSubtle.
Qed.

(** At the size "heading-large-bold" with an affix that is not subtle: the
    prefix is regular. *)
Lemma currencyText_weight_witness :
  In "heading-large-bold"%string sizes
  /\ fontWeight (currencyText "INR" false "heading-large-bold" None)
     = "regular"%string.
Proof.
  assert (H : In "heading-large-bold"%string sizes)
    by (simpl; tauto).
  split; [exact H|].
  exact (currencyText_weight "INR" "heading-large-bold" false None H).
Defined.

(** With an intent, every text of the component has the colour of the
    intent, whether the affix is subtle or not. *)
Theorem AmountTexts_intent_colour (currencyPrefix renderedValue size : string)
    (isAffixSubtle : bool) (suffix intent : string) :
  intent <> EmptyString ->
  Forall (fun t => color t
                   = ("feedback.text." ++ intent ++ ".lowContrast")%string)
         (AmountTexts currencyPrefix renderedValue size isAffixSubtle suffix
            (Some intent)).
Proof.
  intros Hi. unfold AmountTexts, currencyText, AmountValue, getTextColorProps.
  destruct intent as [| c intent]; [contradiction|].
  cbn [amountValueColor affixColor].
  destruct isAffixSubtle, (suffix =? "decimals")%string;
    repeat constructor.
Qed.

(** At the intent "positive". *)
Lemma AmountTexts_intent_colour_witness :
  "positive"%string <> EmptyString
  /\ Forall (fun t => color t = "feedback.text.positive.lowContrast"%string)
            (AmountTexts "INR" "1,234.50" "body-medium" true "decimals"
               (Some "positive"%string)).
Proof.
  assert (H : "positive"%string <> EmptyString) by discriminate.
  split; [exact H|].
  exact (AmountTexts_intent_colour "INR" "1,234.50" "body-medium" true
           "decimals" "positive" H).
Defined.

End Texts.

Section DecimalsDisplay.

Variable getCurrencyAbbreviations : Currency -> list CurrencyAbbreviation.

Local Open Scope list_scope.

Lemma length_string_of_list_ascii (l : list ascii) :
  String.length (string_of_list_ascii l) = List.length l.
Proof. induction l as [| c l IH]; simpl; [reflexivity | now rewrite IH]. Qed.

(** The split display loses nothing: under the policy "decimals", for a
    finite value below [10^21] in magnitude and a subtle affix,
    [AmountValue] shows the formatted value in two texts, the integer part
    with its point and two decimals, that put together are the formatted
    value; the fallback "00" is not used. *)
Theorem AmountValue_decimals_display (q : Q) (c : Currency)
    (size avc ac : string) :
  (Qabs q < inject_Z (10 ^ 21))%Q ->
  exists s integer decimal weight,
    formatAmountWithSuffix getCurrencyAbbreviations (Some "decimals"%string)
      (Finite q) c = Return s
    /\ AmountValue s size avc true (Some "decimals"%string) ac
       = [ mkText integer weight avc; mkText decimal "regular" ac ]
    /\ (integer ++ decimal)%string = s
    /\ String.length decimal = 2%nat
    /\ decimal = string_of_list_ascii (fraction_part s).
Proof.
  intros Hq.
  assert (H2 : (2 <= max_fraction_digits)%nat) by (vm_compute; lia).
  destruct (getFlooredFixed_units q 2 H2 Hq) as (r & n & Hr & Hn).
  unfold formatAmountWithSuffix. cbn [String.eqb Ascii.eqb Bool.eqb].
  rewrite Hr. cbn [bind]. unfold addCommas.
  set (l := if (c =? "INR")%string then en_IN else en_US).
  rewrite (toLocaleString_exact r l 2 n H2 Hn).
  set (pre := sign_prefix (Qlt_bool r 0)
              ++ group_digits l (digits (Z.abs n / 10 ^ Z.of_nat 2))).
  set (fd := digits_fixed 2 (Z.abs n mod 10 ^ Z.of_nat 2)).
  rewrite app_assoc. fold pre.
  assert (Hpre : Forall (fun ch => Ascii.eqb ch "." = false) pre).
  { apply Forall_app. split; [apply Forall_sign_prefix; reflexivity|].
    apply Forall_group_digits; [reflexivity|].
    eapply Forall_impl; [|apply Forall_digits]. apply digit_not_point. }
  assert (Hfd : Forall (fun ch => Ascii.eqb ch "." = false) fd).
  { eapply Forall_impl; [|apply Forall_digits_fixed]. apply digit_not_point. }
  assert (Hlen : List.length fd = 2%nat) by apply length_digits_fixed.
  assert (Hne : fd <> []) by (intros E; rewrite E in Hlen; discriminate).
  eexists _, _, _, _. split; [reflexivity|].
  split; [apply (AmountValue_split pre fd size avc ac Hpre Hfd Hne)|].
  split; [|split].
  - rewrite string_of_list_ascii_app.
    change (string_of_list_ascii ("."%char :: fd))
      with (String "."%char (string_of_list_ascii fd)).
    generalize (string_of_list_ascii pre) (string_of_list_ascii fd).
    intros a b. induction a as [| ch a IH]; simpl; [reflexivity|].
    now rewrite IH.
  - now rewrite length_string_of_list_ascii.
  - unfold fraction_part. rewrite list_ascii_of_string_of_list_ascii.
    rewrite (split_at_app _ _ _ Hpre). reflexivity.
Qed.

End DecimalsDisplay.

(** At 1234.5: "1,234." and "50". *)
Lemma AmountValue_decimals_display_witness :
  (Qabs (12345 # 10) < inject_Z (10 ^ 21))%Q
  /\ exists s integer decimal weight,
       formatAmountWithSuffix sampleAbbreviations (Some "decimals"%string)
         (Finite (12345 # 10)) "INR" = Return s
       /\ AmountValue s "body-medium" "value" true (Some "decimals"%string)
            "affix"
          = [ mkText integer weight "value"; mkText decimal "regular" "affix" ]
       /\ (integer ++ decimal)%string = s.
Proof.
  assert (H : (Qabs (12345 # 10) < inject_Z (10 ^ 21))%Q) by reflexivity.
  split; [exact H|].
  destruct (AmountValue_decimals_display sampleAbbreviations (12345 # 10)
              "INR" "body-medium" "value" "affix" H)
    as (s & i & dd & w & Hs & Hv & Hcat & _).
  exists s, i, dd, w. split; [exact Hs|]. split; [exact Hv | exact Hcat].
Defined.

(** ** More on [getFlooredFixed] and [_Amount] *)

Section Further.



Variable getCurrencyAbbreviations : Currency -> list CurrencyAbbreviation.
Variable currencyPrefixMapping : Currency -> string -> string.

(** The checks change nothing for the input they accept: for a value of
    type number and an intent other than "neutral", [_Amount] returns the
    same with the development flag on and off. *)
Theorem Amount_development_agrees (props : AmountProps) :
  typeof (prop_value props) = "number" ->
  prop_intent props <> Some "neutral" ->
  _Amount getCurrencyAbbreviations currencyPrefixMapping true props
  = _Amount getCurrencyAbbreviations currencyPrefixMapping false props.
Proof.
  destruct props as [v suffix intent prefix currency].
  unfold _Amount. cbn [prop_value prop_suffix prop_intent prop_prefix
                       prop_currency].
  intros Hty Hi. rewrite Hty. cbn [String.eqb Ascii.eqb Bool.eqb negb bind].
  destruct intent as [i |]; [|reflexivity].
  destruct (String.eqb_spec i "neutral") as [-> | _];
    [now contradiction Hi | reflexivity].
Qed.

End Further.

(** At 1234.5 with the intent "positive". *)
Lemma Amount_development_agrees_witness :
  let props := mkProps (JsNumber (Finite (12345 # 10))) None
                 (Some "positive") None None in
  typeof (prop_value props) = "number"
  /\ prop_intent props <> Some "neutral"
  /\ _Amount sampleAbbreviations samplePrefixMapping true props
     = Return (Rendered "INR" "1,234.50").
Proof.
  intros props.
  assert (Hty : typeof (prop_value props) = "number") by reflexivity.
  assert (Hi : prop_intent props <> Some "neutral") by discriminate.
  split; [exact Hty|]. split; [exact Hi|].
  rewrite (Amount_development_agrees sampleAbbreviations samplePrefixMapping
             props Hty Hi).
  vm_compute. reflexivity.
Defined.
